(** * local-chat: the shared chat state store

    A shallow embedding of [src/lib/chat-store.ts], of the bounded log of
    [mini-services/chat-service/index.ts] and of the poll handler of the
    polling adapter, together with the properties of the store that the
    specification states.

    Conventions of the embedding:
    - [Date.now()] and [new Date()] are read from the environment: every
      operation that reads the clock takes the value read, in milliseconds,
      as an argument [now : Z];
    - [Math.random()] is read from the environment too.  Where the code uses
      the number itself the draw is a rational [rnd : Q] (a double is one),
      and [Math.random()] promises [0 <= rnd < 1].  Where the code prints it
      in base 36 the argument is the printed text [r36 : string], since the
      digits that [Number.prototype.toString(36)] prints for a fraction are
      left to the engine;
    - a [Map<string, User>] is the list of its entries in insertion order,
      which is the order in which JavaScript iterates over it;
    - the objects held by the map are distinct objects, one per entry, so an
      assignment to a field of the object found in the map is an update of
      that entry in place. *)

From Stdlib Require Import List String ZArith QArith Qround Lia Bool.
Import ListNotations.

Local Open Scope string_scope.
Local Open Scope list_scope.
Local Open Scope Z_scope.

(** ** JavaScript's insertion-ordered [Map] with string keys *)

Module JsMap.

Section Ops.
Context {V : Type}.

Definition t := list (string * V).

Definition empty : t := [].

Fixpoint get (k : string) (m : t) : option V :=
  match m with
  | [] => None
  | (k', v) :: m' => if String.eqb k' k then Some v else get k m'
  end.

(** [Map.prototype.set]: the value of an existing key is replaced where the
    key stands, a new key goes to the end. *)
Fixpoint set (k : string) (v : V) (m : t) : t :=
  match m with
  | [] => [(k, v)]
  | (k', v') :: m' =>
      if String.eqb k' k then (k, v) :: m' else (k', v') :: set k v m'
  end.

Definition delete (k : string) (m : t) : t :=
  filter (fun e => negb (String.eqb (fst e) k)) m.

Definition keys (m : t) : list string := map fst m.

Definition values (m : t) : list V := map snd m.

Definition entries (m : t) : list (string * V) := m.

(** Assignment to fields of the object stored under [k], when there is one. *)
Fixpoint modify (k : string) (f : V -> V) (m : t) : t :=
  match m with
  | [] => []
  | (k', v) :: m' =>
      if String.eqb k' k then (k', f v) :: m' else (k', v) :: modify k f m'
  end.

(** Assignment to fields of the first stored object that satisfies [p]: the
    object that [Array.from(m.values()).find(p)] returns. *)
Fixpoint modify_first (p : V -> bool) (f : V -> V) (m : t) : t :=
  match m with
  | [] => []
  | (k', v) :: m' =>
      if p v then (k', f v) :: m' else (k', v) :: modify_first p f m'
  end.

End Ops.

Arguments t : clear implicits.

End JsMap.

(** ** Data model *)

Module User.

Record t := mk {
  id : string;
  username : string;
  color : string;
  lastSeen : Z
}.

(** [u.lastSeen = now] *)
Definition setLastSeen (now : Z) (u : t) : t :=
  {| id := id u; username := username u; color := color u; lastSeen := now |}.

End User.

Inductive MessageType := type_user | type_system.

Definition MessageType_eqb (a b : MessageType) : bool :=
  match a, b with
  | type_user, type_user | type_system, type_system => true
  | _, _ => false
  end.

Module Message.

Record t := mk {
  id : string;
  username : string;
  content : string;
  timestamp : Z;
  type : MessageType;
  color : string
}.

End Message.

Record ChatStore := mkStore {
  users : JsMap.t User.t;
  messages : list Message.t
}.

(** [getStore()] on a fresh process *)
Definition emptyStore : ChatStore := {| users := JsMap.empty; messages := [] |}.

Record Stats := mkStats {
  onlineUsers : nat;
  totalMessages : nat;
  userMessages : nat
}.

(** ** Identifiers and colours *)

Definition colors : list string :=
  ["#e74c3c"; "#3498db"; "#2ecc71"; "#9b59b6";
   "#f39c12"; "#1abc9c"; "#e67e22"; "#34495e"].

(** What [Math.random()] promises about the number it returns. *)
Definition unit_draw (rnd : Q) : Prop := (0 <= rnd)%Q /\ (rnd < 1)%Q.

(** [colors[Math.floor(Math.random() * colors.length)]].  An index outside
    the array reads [undefined], which no draw of [Math.random()] reaches;
    it is the empty string here. *)
Definition getRandomColor (rnd : Q) : string :=
  let i := Qfloor (rnd * inject_Z (Z.of_nat (List.length colors))) in
  if i <? 0 then "" else nth (Z.to_nat i) colors "".

(** [Math.random().toString(36).substr(2, 9)], from the printed draw. *)
Definition generateId (r36 : string) : string := substring 2 9 r36.

(** ** Arrays *)

Definition push {A} (x : A) (l : list A) : list A := l ++ [x].

Definition shift {A} (l : list A) : list A := tl l.

(** [findIndex]: the first index whose element satisfies [p], or [-1]. *)
Fixpoint findIndex {A} (p : A -> bool) (l : list A) : Z :=
  match l with
  | [] => -1
  | x :: l' =>
      if p x then 0
      else let i := findIndex p l' in if i <? 0 then -1 else i + 1
  end.

(** [l.slice(start)]: a negative [start] counts from the end. *)
Definition slice {A} (start : Z) (l : list A) : list A :=
  if start <? 0
  then skipn (Z.to_nat (Z.max (Z.of_nat (List.length l) + start) 0)) l
  else skipn (Z.to_nat start) l.

(** ** The store ([src/lib/chat-store.ts]) *)

Definition has_username (username : string) (u : User.t) : bool :=
  String.eqb (User.username u) username.

(** [Array.from(store.users.values()).find(u => u.username === username)] *)
Definition findByUsername (username : string) (s : ChatStore) : option User.t :=
  find (has_username username) (JsMap.values (users s)).

Definition addUser (now : Z) (r36 : string) (rnd : Q) (username : string)
    (s : ChatStore) : ChatStore * User.t :=
  match findByUsername username s with
  | Some existingUser =>
      ({| users := JsMap.modify_first (has_username username)
                     (User.setLastSeen now) (users s);
          messages := messages s |},
       User.setLastSeen now existingUser)
  | None =>
      let user := {| User.id := generateId r36;
                     User.username := username;
                     User.color := getRandomColor rnd;
                     User.lastSeen := now |} in
      ({| users := JsMap.set (User.id user) user (users s);
          messages := messages s |},
       user)
  end.

Definition removeUser (userId : string) (s : ChatStore) : ChatStore :=
  {| users := JsMap.delete userId (users s); messages := messages s |}.

Definition getUser (userId : string) (s : ChatStore) : option User.t :=
  JsMap.get userId (users s).

Definition timeout : Z := 30000.

(** The loop of [getOnlineUsers]: one turn per entry of the map, deleting
    the entry's key when the user has not been seen for more than
    [timeout]. *)
Definition sweep (now : Z) (m : JsMap.t User.t) : JsMap.t User.t :=
  fold_left
    (fun acc e =>
       if now - User.lastSeen (snd e) >? timeout
       then JsMap.delete (fst e) acc else acc)
    (JsMap.entries m) m.

Definition getOnlineUsers (now : Z) (s : ChatStore) : ChatStore * list User.t :=
  let users' := sweep now (users s) in
  ({| users := users'; messages := messages s |}, JsMap.values users').

Definition updateUserSeen (now : Z) (userId : string) (s : ChatStore)
    : ChatStore :=
  match JsMap.get userId (users s) with
  | Some _ =>
      {| users := JsMap.modify userId (User.setLastSeen now) (users s);
         messages := messages s |}
  | None => s
  end.

(** The [type] parameter has the default ['user']: [None] is a call that
    leaves it out. *)
Definition addMessage (now : Z) (r36 : string) (username content color : string)
    (type : option MessageType) (s : ChatStore) : ChatStore * Message.t :=
  let message := {| Message.id := generateId r36;
                    Message.username := username;
                    Message.content := content;
                    Message.timestamp := now;
                    Message.type := match type with
                                    | Some t => t
                                    | None => type_user
                                    end;
                    Message.color := color |} in
  let pushed := push message (messages s) in
  ({| users := users s;
      messages := if (Z.of_nat (List.length pushed) >? 100) then shift pushed
                  else pushed |},
   message).

Definition addSystemMessage (now : Z) (r36 : string) (content : string)
    (s : ChatStore) : ChatStore * Message.t :=
  addMessage now r36 "System" content "#666666" (Some type_system) s.

Definition getMessages (s : ChatStore) : list Message.t := messages s.

Definition is_user_message (m : Message.t) : bool :=
  MessageType_eqb (Message.type m) type_user.

Definition getStats (now : Z) (s : ChatStore) : ChatStore * Stats :=
  let (s', online) := getOnlineUsers now s in
  (s', {| onlineUsers := List.length online;
          totalMessages := List.length (messages s');
          userMessages := List.length (filter is_user_message (messages s')) |}).

(** ** The log of the event-channel service
    ([mini-services/chat-service/index.ts]) *)

Module ChatService.

Definition MAX_MESSAGES : Z := 100.

Definition createSystemMessage (now : Z) (r36 : string) (content : string)
    : Message.t :=
  {| Message.id := generateId r36;
     Message.username := "System";
     Message.content := content;
     Message.timestamp := now;
     Message.type := type_system;
     Message.color := "#666666" |}.

Definition createUserMessage (now : Z) (r36 : string)
    (username content color : string) : Message.t :=
  {| Message.id := generateId r36;
     Message.username := username;
     Message.content := content;
     Message.timestamp := now;
     Message.type := type_user;
     Message.color := color |}.

Definition addMessage (message : Message.t) (messages : list Message.t)
    : list Message.t :=
  let pushed := push message messages in
  if Z.of_nat (List.length pushed) >? MAX_MESSAGES then shift pushed
  else pushed.

End ChatService.

(** ** The poll handler of the polling adapter
    ([src/app/api/chat/messages/route.ts]) *)

(** The values a field of the parsed request body can hold. *)
Inductive JsValue :=
| JsUndefined
| JsNull
| JsBool (b : bool)
| JsNumber (q : Q)
| JsString (s : string)
| JsObject.

(** [if (v)] *)
Definition truthy (v : JsValue) : bool :=
  match v with
  | JsUndefined | JsNull => false
  | JsBool b => b
  | JsNumber q => negb (Qeq_bool q 0)
  | JsString s => negb (String.eqb s "")
  | JsObject => true
  end.

(** [id === v] for a string [id] *)
Definition strict_eq_string (id : string) (v : JsValue) : bool :=
  match v with
  | JsString s => String.eqb id s
  | _ => false
  end.

(** The delta of the poll: [messages] is the log, [lastMessageId] the
    cursor read from the body. *)
Definition newMessages (lastMessageId : JsValue) (messages : list Message.t)
    : list Message.t :=
  if truthy lastMessageId then
    let lastIndex :=
      findIndex (fun m => strict_eq_string (Message.id m) lastMessageId)
                messages in
    if negb (lastIndex =? -1) then slice (lastIndex + 1) messages
    else messages
  else messages.

Record PollBody := mkPollBody {
  body_userId : JsValue;
  body_username : JsValue;
  body_lastMessageId : JsValue
}.

Record PollData := mkPollData {
  data_messages : list Message.t;
  data_users : list User.t;
  data_stats : Stats
}.

(** [store.updateUserSeen(v)] for a value of the body: a key that is not a
    string is not in the map. *)
Definition updateUserSeenValue (now : Z) (v : JsValue) (s : ChatStore)
    : ChatStore :=
  match v with
  | JsString userId => updateUserSeen now userId s
  | _ => s
  end.

(** The three readings of the clock are those of [updateUserSeen],
    [getOnlineUsers] and [getStats], in this order. *)
Definition poll (t1 t2 t3 : Z) (body : PollBody) (s : ChatStore)
    : ChatStore * PollData :=
  let s1 :=
    if truthy (body_userId body) then updateUserSeenValue t1 (body_userId body) s
    else if truthy (body_username body) then
      match find (fun u => strict_eq_string (User.username u)
                             (body_username body))
                 (JsMap.values (users s)) with
      | Some user => updateUserSeen t1 (User.id user) s
      | None => s
      end
    else s in
  let messages := getMessages s1 in
  let (s2, users) := getOnlineUsers t2 s1 in
  let delta := newMessages (body_lastMessageId body) messages in
  let (s3, stats) := getStats t3 s2 in
  (s3, {| data_messages := delta; data_users := users; data_stats := stats |}).

(** ** Runs of the store *)

(** The mutating operations of the store, each with what it reads from the
    environment. *)
Inductive Call :=
| CallAddUser (now : Z) (r36 : string) (rnd : Q) (username : string)
| CallRemoveUser (userId : string)
| CallGetOnlineUsers (now : Z)
| CallUpdateUserSeen (now : Z) (userId : string)
| CallAddMessage (now : Z) (r36 : string) (username content color : string)
    (type : option MessageType)
| CallAddSystemMessage (now : Z) (r36 : string) (content : string)
| CallGetStats (now : Z).

Definition exec (c : Call) (s : ChatStore) : ChatStore :=
  match c with
  | CallAddUser now r36 rnd username => fst (addUser now r36 rnd username s)
  | CallRemoveUser userId => removeUser userId s
  | CallGetOnlineUsers now => fst (getOnlineUsers now s)
  | CallUpdateUserSeen now userId => updateUserSeen now userId s
  | CallAddMessage now r36 username content color type =>
      fst (addMessage now r36 username content color type s)
  | CallAddSystemMessage now r36 content =>
      fst (addSystemMessage now r36 content s)
  | CallGetStats now => fst (getStats now s)
  end.

Definition run (cs : list Call) (s : ChatStore) : ChatStore :=
  fold_left (fun acc c => exec c acc) cs s.

(** The environment keeps the promise of [Math.random()]. *)
Definition valid_call (c : Call) : Prop :=
  match c with
  | CallAddUser _ _ rnd _ => unit_draw rnd
  | _ => True
  end.

(** The states of the store of a running process. *)
Inductive reachable : ChatStore -> Prop :=
| reachable_empty : reachable emptyStore
| reachable_exec c s : reachable s -> valid_call c -> reachable (exec c s).

(** The message that a call creates, if it creates one. *)
Definition created (c : Call) : list Message.t :=
  match c with
  | CallAddMessage now r36 username content color type =>
      [snd (addMessage now r36 username content color type emptyStore)]
  | CallAddSystemMessage now r36 content =>
      [snd (addSystemMessage now r36 content emptyStore)]
  | _ => []
  end.

(** Every message created along a run, oldest first. *)
Definition history (cs : list Call) : list Message.t := flat_map created cs.

(** The last [n] elements of a list. *)
Definition lastn {A} (n : nat) (l : list A) : list A :=
  skipn (List.length l - n) l.

(** ** Invariants of the user map *)

(** Every entry of the map stands under the id of its user. *)
Definition keys_are_ids (m : JsMap.t User.t) : Prop :=
  Forall (fun e => User.id (snd e) = fst e) m.

(** What a [Map] filled by [addUser] satisfies: no key twice (what a [Map]
    is) and every user under its own id. *)
Definition well_formed (s : ChatStore) : Prop :=
  NoDup (JsMap.keys (users s)) /\ keys_are_ids (users s).

Fixpoint distinct (l : list string) : bool :=
  match l with
  | [] => true
  | x :: l' => negb (existsb (String.eqb x) l') && distinct l'
  end.

Definition well_formedb (s : ChatStore) : bool :=
  distinct (JsMap.keys (users s))
  && forallb (fun e => String.eqb (User.id (snd e)) (fst e)) (users s).

Definition palette_colors (m : JsMap.t User.t) : Prop :=
  Forall (fun e => In (User.color (snd e)) colors) m.

(** [u'] is the record [u], up to its [lastSeen]. *)
Definition same_identity (u u' : User.t) : Prop :=
  User.id u' = User.id u
  /\ User.username u' = User.username u
  /\ User.color u' = User.color u.

(** The user record that a call creates, if it creates one. *)
Definition created_user (c : Call) (s : ChatStore) : option User.t :=
  match c with
  | CallAddUser now r36 rnd username =>
      match findByUsername username s with
      | Some _ => None
      | None => Some (snd (addUser now r36 rnd username s))
      end
  | _ => None
  end.

(** The user is not online at [now]: [getOnlineUsers] deletes it. *)
Definition expired (now : Z) (u : User.t) : bool :=
  now - User.lastSeen u >? timeout.

(** ** Two joins under one name *)

(** The call is a [removeUser] of [userId], or a sweep that finds the user
    [userId] expired. *)
Definition removes (userId : string) (c : Call) (s : ChatStore) : bool :=
  match c with
  | CallRemoveUser k => String.eqb k userId
  | CallGetOnlineUsers now | CallGetStats now =>
      match getUser userId s with
      | Some u => expired now u
      | None => false
      end
  | _ => false
  end.

(** The call is an [addUser] that creates a record and draws [userId] for
    it: [Map.set] puts the new record in the place of the one that stood
    under [userId]. *)
Definition collides (userId : string) (c : Call) (s : ChatStore) : bool :=
  match c with
  | CallAddUser _ r36 _ username =>
      match findByUsername username s with
      | Some _ => false
      | None => String.eqb (generateId r36) userId
      end
  | _ => false
  end.

(** No call of the run [cs], started in [s], satisfies [P] in the state in
    which it is made. *)
Fixpoint never (P : Call -> ChatStore -> bool) (cs : list Call)
    (s : ChatStore) : bool :=
  match cs with
  | [] => true
  | c :: cs' => negb (P c s) && never P cs' (exec c s)
  end.

(** The first entry of the map whose user has the name [username]. *)
Definition findEntry (username : string) (m : JsMap.t User.t)
    : option (string * User.t) :=
  find (fun e => has_username username (snd e)) m.

(** The first user of the map with the name [username] stands under
    [userId]. *)
Definition joined_as (username userId : string) (s : ChatStore) : Prop :=
  exists u, findEntry username (users s) = Some (userId, u).

(** What the specification says of two joins, for one choice of the calls:
    [addUser username] on [s], then the calls [cs], none of which removes
    the user, then [addUser username] again, return the same id. *)
Definition same_id_twice (now1 : Z) (r1 : string) (q1 : Q)
    (now2 : Z) (r2 : string) (q2 : Q) (username : string)
    (cs : list Call) (s : ChatStore) : Prop :=
  let first := addUser now1 r1 q1 username s in
  never (removes (User.id (snd first))) cs (fst first) = true ->
  let second := addUser now2 r2 q2 username (run cs (fst first)) in
  User.id (snd second) = User.id (snd first).

(** ** Message ids *)

(** The printed draws of the calls that create a message. *)
Definition message_draws (cs : list Call) : list string :=
  flat_map (fun c => match c with
                     | CallAddMessage _ r36 _ _ _ _ => [r36]
                     | CallAddSystemMessage _ r36 _ => [r36]
                     | _ => []
                     end) cs.

(** What the specification says of message ids, for one run: the messages
    ever created have pairwise distinct ids. *)
Definition ids_never_reused (cs : list Call) : Prop :=
  NoDup (map Message.id (history cs)).

(** ** The poll delta *)

(** What the specification says of the delta, for one cursor and one log:
    a cursor that is the id of the message at position [i] gives the
    messages after [i]. *)
Definition delta_after_cursor (cursor : string) (log : list Message.t) : Prop :=
  forall (i : nat) (m : Message.t),
    nth_error log i = Some m -> Message.id m = cursor ->
    newMessages (JsString cursor) log = skipn (S i) log.

(** ** [addSystemMessage], after the specification *)

Definition neutralColor : string := "#666666".

(** The message of [addMessage("System", content, neutralColor, "system")]
    is appended to the log, and the oldest entry is evicted if the length of
    the log now exceeds 100. *)
Definition spec_addSystemMessage (now : Z) (r36 : string) (content : string)
    (s : ChatStore) : ChatStore * Message.t :=
  let m := Message.mk (generateId r36) "System" content now type_system
                      neutralColor in
  let appended := messages s ++ [m] in
  (mkStore (users s)
           (if (100 <? List.length appended)%nat then tl appended else appended),
   m).

(** ** [getStats], after the specification *)

(** The number of entries of the log with [type = "user"]. *)
Fixpoint count_user_messages (l : list Message.t) : nat :=
  match l with
  | [] => 0%nat
  | m :: l' =>
      match Message.type m with
      | type_user => S (count_user_messages l')
      | type_system => count_user_messages l'
      end
  end.

(** ** The routes of the polling adapter

    A handler answers with [NextResponse.json]: [Success data] is
    [{ success: true, data }], [Failure status error] is
    [{ success: false, error }] with the status.  The body of a request is
    what [request.json()] gives: [None] when the call throws, or gives
    [null], whose fields cannot be read (the [catch] answers both); its
    fields are any values. *)

Inductive Response (A : Type) :=
| Success (data : A)
| Failure (status : Z) (error : string).

Arguments Success {A} data.
Arguments Failure {A} status error.

(** What a handler does to the store, and its answer.  The store holds
    strings: where a field that is truthy and not a string would go into it,
    the embedding stops ([untyped]). *)
Inductive Handled (A : Type) :=
| handled (s : ChatStore) (r : Response A)
| untyped.

Arguments handled {A} s r.
Arguments untyped {A}.

Record JoinData := mkJoinData {
  join_user : User.t;
  join_users : list User.t;
  join_messages : list Message.t
}.

(** [POST /api/chat/join].  The clock and the draws are those of [addUser]
    ([t1], [r1], [rnd]), of [addSystemMessage] ([t2], [r2]) and of
    [getOnlineUsers] ([t3]). *)
Definition joinRoute (t1 : Z) (r1 : string) (rnd : Q) (t2 : Z) (r2 : string)
    (t3 : Z) (body : option JsValue) (s : ChatStore) : Handled JoinData :=
  match body with
  | None => handled s (Failure 400 "Invalid JSON")
  | Some username =>
      if negb (truthy username)
      then handled s (Failure 400 "username required")
      else
        match username with
        | JsString name =>
            let (s1, user) := addUser t1 r1 rnd name s in
            let (s2, _) :=
              addSystemMessage t2 r2 (name ++ " joined the chat")%string s1 in
            let (s3, online) := getOnlineUsers t3 s2 in
            handled s3 (Success {| join_user := user;
                                   join_users := online;
                                   join_messages := getMessages s3 |})
        | _ => untyped
        end
  end.

Record SendBody := mkSendBody {
  send_username : JsValue;
  send_content : JsValue;
  send_color : JsValue
}.

(** [color || user?.color || store.addUser(username).color]: the store
    after the expression and its value. *)
Definition messageColor (t1 : Z) (r1 : string) (rnd : Q) (color : JsValue)
    (name : string) (s : ChatStore) : option (ChatStore * string) :=
  if truthy color then
    match color with
    | JsString c => Some (s, c)
    | _ => None
    end
  else
    match findByUsername name s with
    | Some user =>
        if negb (String.eqb (User.color user) "") then Some (s, User.color user)
        else let (s1, u1) := addUser t1 r1 rnd name s in Some (s1, User.color u1)
    | None =>
        let (s1, u1) := addUser t1 r1 rnd name s in Some (s1, User.color u1)
    end.

(** [POST /api/chat/messages] *)
Definition sendRoute (t1 : Z) (r1 : string) (rnd : Q) (t2 : Z) (r2 : string)
    (body : option SendBody) (s : ChatStore) : Handled Message.t :=
  match body with
  | None => handled s (Failure 400 "Invalid JSON")
  | Some b =>
      if negb (truthy (send_username b)) || negb (truthy (send_content b))
      then handled s (Failure 400 "username and content required")
      else
        match send_username b, send_content b with
        | JsString name, JsString content =>
            match messageColor t1 r1 rnd (send_color b) name s with
            | Some (s1, color) =>
                let (s2, message) :=
                  addMessage t2 r2 name content color None s1 in
                handled s2 (Success message)
            | None => untyped
            end
        | _, _ => untyped
        end
  end.

Record LeaveBody := mkLeaveBody {
  leave_userId : JsValue;
  leave_username : JsValue
}.

(** The user that the body of a leave names: the one under [userId] when
    [userId] is truthy, and only then; else the first one named
    [username]. *)
Definition leaving (b : LeaveBody) (s : ChatStore) : option User.t :=
  if truthy (leave_userId b) then
    match leave_userId b with
    | JsString userId => getUser userId s
    | _ => None
    end
  else if truthy (leave_username b) then
    find (fun u => strict_eq_string (User.username u) (leave_username b))
         (JsMap.values (users s))
  else None.

(** [POST /api/chat/leave] *)
Definition leaveRoute (t : Z) (r36 : string) (body : option LeaveBody)
    (s : ChatStore) : ChatStore * Response unit :=
  match body with
  | None => (s, Failure 400 "Invalid JSON")
  | Some b =>
      let s' :=
        if truthy (leave_userId b) then
          match leave_userId b with
          | JsString userId =>
              match getUser userId s with
              | Some user =>
                  fst (addSystemMessage t r36
                         (User.username user ++ " left the chat")%string
                         (removeUser userId s))
              | None => s
              end
          | _ => s
          end
        else if truthy (leave_username b) then
          match find (fun u => strict_eq_string (User.username u)
                                 (leave_username b))
                     (JsMap.values (users s)) with
          | Some user =>
              fst (addSystemMessage t r36
                     (User.username user ++ " left the chat")%string
                     (removeUser (User.id user) s))
          | None => s
          end
        else s in
      (s', Success tt)
  end.

(** ** The event-channel service ([mini-services/chat-service/index.ts])

    The handlers of the socket events, with what they emit: [io.emit] goes
    to all sockets, [socket.emit] to the socket of the event,
    [socket.broadcast.emit] to all the others.  The payloads of the events
    have the types that the handlers declare. *)

Module Service.

Record User := mkUser {
  id : string;
  username : string;
  color : string
}.

Record State := mkState {
  users : JsMap.t User;
  messages : list Message.t
}.

Definition init : State := {| users := JsMap.empty; messages := [] |}.

Inductive Target :=
| ToAll
| ToSocket (socket : string)
| ToOthers (socket : string).

Inductive Payload :=
| RecentMessages (msgs : list Message.t)
| UserJoined (user : User) (message : Message.t)
| UsersList (users : list User)
| NewMessage (message : Message.t)
| UserTyping (username : string)
| UserLeft (id username : string) (message : Message.t).

Definition Emission : Type := Target * Payload.

Section Handlers.

(** [String.prototype.trim] *)
Variable trim : string -> string.

(** [io.on('connection', ...)] *)
Definition onConnection (socket : string) (st : State)
    : State * list Emission :=
  (st, [(ToSocket socket, RecentMessages (messages st))]).

(** [socket.on('join', ...)] *)
Definition onJoin (socket : string) (rnd : Q) (r36 : string) (now : Z)
    (username : string) (st : State) : State * list Emission :=
  let color := getRandomColor rnd in
  let user := {| id := socket; username := username; color := color |} in
  let users' := JsMap.set socket user (users st) in
  let joinMessage :=
    ChatService.createSystemMessage now r36
      (username ++ " joined the chat")%string in
  let messages' := ChatService.addMessage joinMessage (messages st) in
  ({| users := users'; messages := messages' |},
   [(ToAll, UserJoined user joinMessage);
    (ToSocket socket, UsersList (JsMap.values users'))]).

(** [socket.on('message', ...)]: [content] is [data.content], [None] when
    it is undefined. *)
Definition onMessage (socket : string) (r36 : string) (now : Z)
    (content : option string) (st : State) : State * list Emission :=
  match JsMap.get socket (users st), content with
  | Some user, Some text =>
      if negb (String.eqb (trim text) "") then
        let message :=
          ChatService.createUserMessage now r36 (username user) (trim text)
                                        (color user) in
        ({| users := users st;
            messages := ChatService.addMessage message (messages st) |},
         [(ToAll, NewMessage message)])
      else (st, [])
  | _, _ => (st, [])
  end.

(** [socket.on('typing', ...)] *)
Definition onTyping (socket : string) (st : State) : State * list Emission :=
  match JsMap.get socket (users st) with
  | Some user => (st, [(ToOthers socket, UserTyping (username user))])
  | None => (st, [])
  end.

(** [socket.on('disconnect', ...)] *)
Definition onDisconnect (socket : string) (r36 : string) (now : Z)
    (st : State) : State * list Emission :=
  match JsMap.get socket (users st) with
  | Some user =>
      let users' := JsMap.delete socket (users st) in
      let leaveMessage :=
        ChatService.createSystemMessage now r36
          (username user ++ " left the chat")%string in
      ({| users := users';
          messages := ChatService.addMessage leaveMessage (messages st) |},
       [(ToAll, UserLeft socket (username user) leaveMessage)])
  | None => (st, [])
  end.

(** The events of the sockets, with what their handlers read from the
    environment. *)
Inductive Event :=
| Connection (socket : string)
| Join (socket : string) (rnd : Q) (r36 : string) (now : Z) (username : string)
| Msg (socket : string) (r36 : string) (now : Z) (content : option string)
| Typing (socket : string)
| Disconnect (socket : string) (r36 : string) (now : Z).

Definition handle (e : Event) (st : State) : State * list Emission :=
  match e with
  | Connection socket => onConnection socket st
  | Join socket rnd r36 now username => onJoin socket rnd r36 now username st
  | Msg socket r36 now content => onMessage socket r36 now content st
  | Typing socket => onTyping socket st
  | Disconnect socket r36 now => onDisconnect socket r36 now st
  end.

(** The state after the events, and everything emitted, in order. *)
Fixpoint play (es : list Event) (st : State) : State * list Emission :=
  match es with
  | [] => (st, [])
  | e :: es' =>
      let (st1, out1) := handle e st in
      let (st2, out2) := play es' st1 in
      (st2, out1 ++ out2)
  end.

(** [POST /api/message]: [None] where a field that is truthy and not a
    string would go into a message. *)
Definition httpPostMessage (rnd : Q) (r36 : string) (now : Z)
    (body : option SendBody) (st : State)
    : option (State * list Emission * Response Message.t) :=
  match body with
  | None => Some (st, [], Failure 400 "Invalid JSON")
  | Some b =>
      if negb (truthy (send_username b)) || negb (truthy (send_content b))
      then Some (st, [], Failure 400 "username and content required")
      else
        match send_username b, send_content b with
        | JsString name, JsString content =>
            let color :=
              if truthy (send_color b) then
                match send_color b with
                | JsString c => Some c
                | _ => None
                end
              else Some (getRandomColor rnd) in
            match color with
            | Some c =>
                let message :=
                  ChatService.createUserMessage now r36 name content c in
                Some ({| users := users st;
                         messages :=
                           ChatService.addMessage message (messages st) |},
                      [(ToAll, NewMessage message)],
                      Success message)
            | None => None
            end
        | _, _ => None
        end
  end.

(** The states of a running service. *)
Inductive reachable : State -> Prop :=
| reachable_init : reachable init
| reachable_event e st : reachable st -> reachable (fst (handle e st))
| reachable_post rnd r36 now body st st' out r :
    reachable st ->
    httpPostMessage rnd r36 now body st = Some (st', out, r) ->
    reachable st'.

End Handlers.

(** The messages that a list of emissions carries to all sockets. *)
Definition broadcast (out : list Emission) : list Message.t :=
  flat_map (fun e => match e with
                     | (ToAll, UserJoined _ m) => [m]
                     | (ToAll, NewMessage m) => [m]
                     | (ToAll, UserLeft _ _ m) => [m]
                     | _ => []
                     end) out.

(** [GET /api/stats] *)
Definition stats (st : State) : Stats :=
  {| onlineUsers := List.length (users st);
     totalMessages := List.length (messages st);
     userMessages := List.length (filter is_user_message (messages st)) |}.

End Service.

(** The log of the service holds at most 100 messages, and its map holds
    no key twice and every user under the id of its socket. *)
Definition service_well_formed (st : Service.State) : Prop :=
  (List.length (Service.messages st) <= 100)%nat
  /\ NoDup (JsMap.keys (Service.users st))
  /\ Forall (fun e => Service.id (snd e) = fst e) (Service.users st).

(** ** The page (the component [ChatApp]): what it keeps of the answers *)

(** [l.filter((x, index, self) => p(x, index))], from index [i] on. *)
Fixpoint filterFrom {A} (i : Z) (p : A -> Z -> bool) (l : list A) : list A :=
  match l with
  | [] => []
  | x :: l' =>
      if p x i then x :: filterFrom (i + 1) p l' else filterFrom (i + 1) p l'
  end.

Section Page.
Context {A : Type} (id : A -> string).

(** [all.filter((msg, index, self) =>
       index === self.findIndex(m => m.id === msg.id))] *)
Definition uniqueById (all : list A) : list A :=
  filterFrom 0
    (fun msg index =>
       index =? findIndex (fun m => String.eqb (id m) (id msg)) all)
    all.

(** The elements of [l] whose id is neither that of an element of [pre]
    nor that of an earlier element of [l]. *)
Fixpoint firstOccurrences (pre l : list A) : list A :=
  match l with
  | [] => []
  | x :: l' =>
      if existsb (fun m => String.eqb (id m) (id x)) pre
      then firstOccurrences (pre ++ [x]) l'
      else x :: firstOccurrences (pre ++ [x]) l'
  end.

(** ['user-joined']: [prev.find(u => u.id === user.id) ? prev
    : [...prev, user]] *)
Definition userJoined (user : A) (prev : list A) : list A :=
  match find (fun u => String.eqb (id u) (id user)) prev with
  | Some _ => prev
  | None => prev ++ [user]
  end.

(** ['user-left']: [prev.filter(u => u.id !== user.id)] *)
Definition userLeft (userId : string) (prev : list A) : list A :=
  filter (fun u => negb (String.eqb (id u) userId)) prev.

End Page.

(** The messages shown and the cursor ([lastMessageIdRef]) of a page in
    polling mode. *)
Record PageState := mkPageState {
  page_messages : list Message.t;
  lastMessageId : string
}.

(** [arr[arr.length - 1].id] of a list that is not empty, [d] otherwise. *)
Definition lastId (d : string) (arr : list Message.t) : string :=
  match nth_error arr (List.length arr - 1) with
  | Some m => Message.id m
  | None => d
  end.

(** What the page does with the messages of a poll answer. *)
Definition onPollData (data : list Message.t) (st : PageState) : PageState :=
  if (0 <? List.length data)%nat then
    {| page_messages := uniqueById Message.id (page_messages st ++ data);
       lastMessageId := lastId (lastMessageId st) data |}
  else st.

(** The body of the next poll of the page. *)
Definition pollBody (userId username : string) (st : PageState) : PollBody :=
  {| body_userId := JsString userId;
     body_username := JsString username;
     body_lastMessageId := JsString (lastMessageId st) |}.

(** ** Further invariants of the store *)

(** The names of the users of the map, in its order. *)
Definition names_of (m : JsMap.t User.t) : list string :=
  map (fun e => User.username (snd e)) m.

(** No two users of the map have the same name. *)
Definition unique_usernames (m : JsMap.t User.t) : Prop :=
  NoDup (names_of m).

(** * Properties *)

(** ** Lists *)

Section ListFacts.
Context {A : Type}.

Lemma lastn_length (n : nat) (l : list A) :
  List.length (lastn n l) = Nat.min n (List.length l).
Proof. unfold lastn. rewrite length_skipn. lia. Qed.

Lemma lastn_all (n : nat) (l : list A) :
  (List.length l <= n)%nat -> lastn n l = l.
Proof.
  intros H. unfold lastn.
  replace (List.length l - n)%nat with 0%nat by lia. reflexivity.
Qed.

Lemma lastn_app_lastn (n : nat) (l l' : list A) :
  lastn n (lastn n l ++ l') = lastn n (l ++ l').
Proof.
  destruct (Nat.le_gt_cases (List.length l) n) as [Hle | Hgt].
  - rewrite (lastn_all n l Hle). reflexivity.
  - unfold lastn at 1 3.
    rewrite !length_app, lastn_length.
    replace (Nat.min n (List.length l)) with n by lia.
    replace (n + List.length l' - n)%nat with (List.length l') by lia.
    replace (List.length l + List.length l' - n)%nat
      with (List.length l' + (List.length l - n))%nat by lia.
    rewrite <- skipn_skipn. f_equal.
    unfold lastn. rewrite skipn_app.
    replace (List.length l - n - List.length l)%nat with 0%nat by lia.
    reflexivity.
Qed.

Lemma lastn_suffix (n : nat) (l : list A) :
  exists evicted, l = evicted ++ lastn n l
                  /\ List.length evicted = (List.length l - n)%nat.
Proof.
  exists (firstn (List.length l - n) l). split.
  - unfold lastn. symmetry. apply firstn_skipn.
  - rewrite length_firstn. lia.
Qed.

End ListFacts.

(** ** The bounded log *)

Lemma service_addMessage_lastn (m : Message.t) (l : list Message.t) :
  (List.length l <= 100)%nat ->
  ChatService.addMessage m l = lastn 100 (l ++ [m]).
Proof.
  intros H. unfold ChatService.addMessage, ChatService.MAX_MESSAGES, push, shift.
  destruct (Z.gtb_spec (Z.of_nat (List.length (l ++ [m]))) 100) as [Hgt | Hle];
    rewrite length_app in *; cbn [List.length] in *.
  - unfold lastn. rewrite length_app. cbn [List.length].
    replace (List.length l + 1 - 100)%nat with 1%nat by lia.
    destruct (l ++ [m]); reflexivity.
  - symmetry. apply lastn_all. rewrite length_app. cbn [List.length]. lia.
Qed.

Lemma service_addMessage_length (m : Message.t) (l : list Message.t) :
  (List.length l <= 100)%nat ->
  (List.length (ChatService.addMessage m l) <= 100)%nat.
Proof.
  intros H. rewrite service_addMessage_lastn by exact H.
  rewrite lastn_length. lia.
Qed.

(** The store's [addMessage] and the service's [addMessage] keep the log in
    the same way. *)
Lemma addMessage_messages now r36 username content color type s :
  messages (fst (addMessage now r36 username content color type s))
  = ChatService.addMessage
      (snd (addMessage now r36 username content color type s)) (messages s).
Proof. reflexivity. Qed.

Lemma addMessage_message_indep now r36 username content color type s s' :
  snd (addMessage now r36 username content color type s)
  = snd (addMessage now r36 username content color type s').
Proof. reflexivity. Qed.

Lemma addMessage_users now r36 username content color type s :
  users (fst (addMessage now r36 username content color type s)) = users s.
Proof. reflexivity. Qed.

Lemma addUser_messages now r36 rnd username s :
  messages (fst (addUser now r36 rnd username s)) = messages s.
Proof. unfold addUser. destruct (findByUsername username s); reflexivity. Qed.

Lemma exec_messages (c : Call) (s : ChatStore) :
  messages (exec c s)
  = fold_left (fun l m => ChatService.addMessage m l) (created c) (messages s).
Proof.
  destruct c; cbn [exec created fold_left]; try reflexivity.
  - apply addUser_messages.
  - unfold updateUserSeen. destruct (JsMap.get userId (users s)); reflexivity.
Qed.

Lemma run_messages (cs : list Call) (s : ChatStore) :
  messages (run cs s)
  = fold_left (fun l m => ChatService.addMessage m l) (history cs) (messages s).
Proof.
  revert s. induction cs as [| c cs IH]; intros s; [reflexivity |].
  unfold run, history in *. cbn [fold_left flat_map].
  rewrite IH, fold_left_app, exec_messages. reflexivity.
Qed.

Lemma bounded_fold (ms l : list Message.t) :
  (List.length l <= 100)%nat ->
  fold_left (fun l m => ChatService.addMessage m l) ms l = lastn 100 (l ++ ms).
Proof.
  revert l. induction ms as [| m ms IH]; intros l H; cbn [fold_left].
  - rewrite app_nil_r. symmetry. apply lastn_all, H.
  - rewrite IH by (apply service_addMessage_length, H).
    rewrite service_addMessage_lastn by exact H.
    rewrite lastn_app_lastn, <- app_assoc. reflexivity.
Qed.

Lemma run_messages_lastn (cs : list Call) (s : ChatStore) :
  (List.length (messages s) <= 100)%nat ->
  messages (run cs s) = lastn 100 (messages s ++ history cs).
Proof. intros H. rewrite run_messages. apply bounded_fold, H. Qed.

Lemma reachable_messages_bound (s : ChatStore) :
  reachable s -> (List.length (messages s) <= 100)%nat.
Proof.
  induction 1 as [| c s Hs IH Hc]; [cbn; lia |].
  change (exec c s) with (run [c] s).
  rewrite run_messages_lastn by exact IH. rewrite lastn_length. lia.
Qed.

Lemma addMessage_evicts_oldest now r36 username content color type s oldest rest :
  messages s = oldest :: rest ->
  (100 <= List.length (messages s))%nat ->
  messages (fst (addMessage now r36 username content color type s))
  = rest ++ [snd (addMessage now r36 username content color type s)].
Proof.
  intros Hl Hlen. cbn [addMessage fst snd messages]. unfold push, shift.
  rewrite Hl in *. rewrite length_app. cbn [List.length] in *.
  destruct (Z.gtb_spec (Z.of_nat (S (List.length rest) + 1)) 100); [| lia].
  reflexivity.
Qed.

Lemma addMessage_appends now r36 username content color type s :
  (List.length (messages s) < 100)%nat ->
  messages (fst (addMessage now r36 username content color type s))
  = messages s ++ [snd (addMessage now r36 username content color type s)].
Proof.
  intros Hlen. cbn [addMessage fst snd messages]. unfold push, shift.
  rewrite length_app. cbn [List.length].
  destruct (Z.gtb_spec (Z.of_nat (List.length (messages s) + 1)) 100); [lia |].
  reflexivity.
Qed.

(** C1. From a store whose log holds at most 100 messages, after any
    sequence of calls [getMessages] returns the last 100 of the messages of
    the log followed by the messages created, in call order; its length is
    at most 100; an [addMessage] on a log of fewer than 100 messages appends
    and evicts nothing; an [addMessage] on a full log evicts the oldest
    message and keeps the others as they are and in order; no [addMessage]
    touches the users; and the service's [addMessage] keeps its log the
    same way. *)
Theorem addMessage_log_bounded_fifo (s : ChatStore) (cs : list Call) :
  (List.length (getMessages s) <= 100)%nat ->
  getMessages (run cs s) = lastn 100 (getMessages s ++ history cs)
  /\ (List.length (getMessages (run cs s)) <= 100)%nat
  /\ (forall now r36 username content color type,
        let r := addMessage now r36 username content color type (run cs s) in
        users (fst r) = users (run cs s)
        /\ ((List.length (getMessages (run cs s)) < 100)%nat ->
            getMessages (fst r) = getMessages (run cs s) ++ [snd r])
        /\ (forall oldest rest,
              getMessages (run cs s) = oldest :: rest ->
              List.length (getMessages (run cs s)) = 100%nat ->
              getMessages (fst r) = rest ++ [snd r])
        /\ getMessages (fst r)
           = ChatService.addMessage (snd r) (getMessages (run cs s))).
Proof.
  intros H. unfold getMessages in *.
  split; [apply run_messages_lastn, H |].
  split; [rewrite run_messages_lastn by exact H; rewrite lastn_length; lia |].
  intros now r36 username content color type.
  split; [reflexivity |].
  split; [apply addMessage_appends |].
  split; [| reflexivity].
  intros oldest rest Hl Hlen. eapply addMessage_evicts_oldest; [exact Hl | lia].
Qed.

(** 101 user messages sent to a fresh store. *)
Lemma addMessage_log_bounded_fifo_witness :
  let cs := map (fun i => CallAddMessage (Z.of_nat i) "0.k3j2h1g0f9e8" "Alice"
                            "hi" "#e74c3c" None) (seq 0 101) in
  (List.length (getMessages emptyStore) <= 100)%nat
  /\ getMessages (run cs emptyStore) = lastn 100 (getMessages emptyStore ++ history cs)
  /\ (List.length (getMessages (run cs emptyStore)) <= 100)%nat.
Proof.
  intros cs.
  assert (H : (List.length (getMessages emptyStore) <= 100)%nat) by (cbn; lia).
  split; [exact H |].
  pose proof (addMessage_log_bounded_fifo emptyStore cs H) as (H1 & H2 & _).
  split; [exact H1 | exact H2].
Defined.

(** ** The insertion-ordered map *)

Module JsMapFacts.
Import JsMap.

Section Facts.
Context {V : Type}.
Implicit Types (m : JsMap.t V) (k : string) (v : V).

Lemma get_In k v m : get k m = Some v -> In (k, v) m.
Proof.
  induction m as [| [k' v'] m IH]; cbn; [discriminate |].
  destruct (String.eqb_spec k' k) as [-> | Hne].
  - intros [= ->]. now left.
  - intros H. right. apply IH, H.
Qed.

Lemma get_None k m : get k m = None <-> ~ In k (keys m).
Proof.
  induction m as [| [k' v'] m IH]; cbn; [tauto |].
  destruct (String.eqb_spec k' k) as [-> | Hne].
  - split; [discriminate | intros H; exfalso; apply H; now left].
  - rewrite IH. tauto.
Qed.

Lemma In_keys k v m : In (k, v) m -> In k (keys m).
Proof. intros H. apply (in_map fst) in H. exact H. Qed.

Lemma In_get k v m : NoDup (keys m) -> In (k, v) m -> get k m = Some v.
Proof.
  induction m as [| [k' v'] m IH]; cbn; [tauto |].
  intros Hnd [[= -> ->] | Hin].
  - now rewrite String.eqb_refl.
  - inversion Hnd as [| ? ? Hnotin Hnd']; subst.
    destruct (String.eqb_spec k' k) as [-> | Hne].
    + exfalso. apply Hnotin. eapply In_keys, Hin.
    + apply IH; assumption.
Qed.

Lemma get_set_eq k v m : get k (set k v m) = Some v.
Proof.
  induction m as [| [k' v'] m IH]; cbn.
  - now rewrite String.eqb_refl.
  - destruct (String.eqb_spec k' k) as [-> | Hne]; cbn.
    + now rewrite String.eqb_refl.
    + destruct (String.eqb_spec k' k); [contradiction | exact IH].
Qed.

Lemma get_set_ne k k' v m : k' <> k -> get k' (set k v m) = get k' m.
Proof.
  intros Hne. induction m as [| [k0 v0] m IH]; cbn.
  - destruct (String.eqb_spec k k'); [congruence | reflexivity].
  - destruct (String.eqb_spec k0 k) as [-> | Hne0]; cbn.
    + destruct (String.eqb_spec k k'); [congruence | reflexivity].
    + destruct (String.eqb_spec k0 k'); [reflexivity | exact IH].
Qed.

Lemma In_set e k v m : In e (set k v m) -> e = (k, v) \/ In e m.
Proof.
  induction m as [| [k' v'] m IH]; cbn.
  - intros [<- | []]. now left.
  - destruct (String.eqb_spec k' k) as [-> | Hne]; cbn.
    + intros [<- | Hin]; [now left | right; now right].
    + intros [<- | Hin]; [right; now left |].
      destruct (IH Hin) as [-> | Hin']; [now left | right; now right].
Qed.

Lemma keys_set_present k v m : In k (keys m) -> keys (set k v m) = keys m.
Proof.
  induction m as [| [k' v'] m IH]; cbn; [tauto |].
  destruct (String.eqb_spec k' k) as [-> | Hne]; cbn; [reflexivity |].
  intros [Heq | Hin]; [contradiction |]. f_equal. apply IH, Hin.
Qed.

Lemma keys_set_absent k v m : ~ In k (keys m) -> keys (set k v m) = keys m ++ [k].
Proof.
  induction m as [| [k' v'] m IH]; cbn; [reflexivity |].
  intros Hnotin.
  destruct (String.eqb_spec k' k) as [-> | Hne]; cbn; [tauto |].
  f_equal. apply IH. tauto.
Qed.

Lemma NoDup_set k v m : NoDup (keys m) -> NoDup (keys (set k v m)).
Proof.
  intros Hnd. destruct (in_dec string_dec k (keys m)) as [Hin | Hnotin].
  - now rewrite keys_set_present.
  - rewrite keys_set_absent by exact Hnotin.
    apply NoDup_app; [exact Hnd | repeat constructor; intros [] |].
    intros x Hx [<- | []]. contradiction.
Qed.

Lemma In_delete e k m : In e (delete k m) <-> In e m /\ fst e <> k.
Proof.
  unfold delete. rewrite filter_In, negb_true_iff, String.eqb_neq. tauto.
Qed.

Lemma get_delete_eq k m : get k (delete k m) = None.
Proof.
  apply get_None. intros Hin. apply in_map_iff in Hin as ([k' v] & Hk & Hin).
  apply In_delete in Hin as [_ Hne]. now apply Hne.
Qed.

Lemma get_delete_ne k k' m : k' <> k -> get k' (delete k m) = get k' m.
Proof.
  intros Hne. induction m as [| [k0 v0] m IH]; cbn; [reflexivity |].
  destruct (String.eqb_spec k0 k) as [-> | Hne0]; cbn.
  - destruct (String.eqb_spec k k'); [congruence | exact IH].
  - destruct (String.eqb_spec k0 k'); [reflexivity | exact IH].
Qed.

Lemma delete_absent k m : get k m = None -> delete k m = m.
Proof.
  induction m as [| [k0 v0] m IH]; cbn; [reflexivity |].
  destruct (String.eqb_spec k0 k) as [-> | Hne0]; cbn; [discriminate |].
  intros H. f_equal. apply IH, H.
Qed.

Lemma delete_idempotent k m : delete k (delete k m) = delete k m.
Proof. apply delete_absent, get_delete_eq. Qed.

Lemma keys_delete k m :
  keys (delete k m) = filter (fun k' => negb (String.eqb k' k)) (keys m).
Proof.
  induction m as [| [k0 v0] m IH]; cbn; [reflexivity |].
  destruct (String.eqb k0 k); cbn; [exact IH | f_equal; exact IH].
Qed.

Lemma NoDup_delete k m : NoDup (keys m) -> NoDup (keys (delete k m)).
Proof. intros H. rewrite keys_delete. apply NoDup_filter, H. Qed.

Lemma keys_modify k f m : keys (modify k f m) = keys m.
Proof.
  induction m as [| [k0 v0] m IH]; cbn; [reflexivity |].
  destruct (String.eqb k0 k); cbn; [reflexivity | f_equal; exact IH].
Qed.

Lemma get_modify k k' f m :
  get k' (modify k f m)
  = if String.eqb k k' then option_map f (get k' m) else get k' m.
Proof.
  induction m as [| [k0 v0] m IH]; cbn; [now destruct (String.eqb k k') |].
  destruct (String.eqb_spec k0 k) as [-> | Hne0]; cbn.
  - destruct (String.eqb_spec k k'); reflexivity.
  - destruct (String.eqb_spec k0 k') as [-> | Hne1]; [| exact IH].
    destruct (String.eqb_spec k k'); [congruence | reflexivity].
Qed.

Lemma In_modify k' v' k f m :
  In (k', v') (modify k f m) ->
  exists v, In (k', v) m /\ (v' = v \/ v' = f v).
Proof.
  induction m as [| [k0 v0] m IH]; cbn; [tauto |].
  destruct (String.eqb k0 k); cbn.
  - intros [[= <- <-] | Hin]; [exists v0 | exists v']; auto.
  - intros [[= <- <-] | Hin]; [exists v0; auto |].
    destruct (IH Hin) as (v & Hv & Hor). exists v. auto.
Qed.

Lemma keys_modify_first p f m : keys (modify_first p f m) = keys m.
Proof.
  induction m as [| [k0 v0] m IH]; cbn; [reflexivity |].
  destruct (p v0); cbn; [reflexivity | f_equal; exact IH].
Qed.

Lemma In_modify_first k' v' p f m :
  In (k', v') (modify_first p f m) ->
  exists v, In (k', v) m /\ (v' = v \/ v' = f v).
Proof.
  induction m as [| [k0 v0] m IH]; cbn; [tauto |].
  destruct (p v0); cbn.
  - intros [[= <- <-] | Hin]; [exists v0 | exists v']; auto.
  - intros [[= <- <-] | Hin]; [exists v0; auto |].
    destruct (IH Hin) as (v & Hv & Hor). exists v. auto.
Qed.

(** With no key twice, assigning to the first object that satisfies [p] is
    assigning to the object under its key. *)
Lemma modify_first_modify p f k v m :
  NoDup (keys m) ->
  find (fun e => p (snd e)) m = Some (k, v) ->
  modify_first p f m = modify k f m.
Proof.
  induction m as [| [k0 v0] m IH]; cbn; [discriminate |].
  intros Hnd. inversion Hnd as [| ? ? Hnotin Hnd']; subst.
  destruct (p v0) eqn:Hp.
  - intros [= -> ->]. now rewrite String.eqb_refl.
  - intros Hfind. destruct (String.eqb_spec k0 k) as [-> | Hne].
    + exfalso. apply Hnotin. apply find_some in Hfind as [Hin _].
      eapply In_keys, Hin.
    + f_equal. apply IH; assumption.
Qed.

Lemma find_values p m :
  find p (values m) = option_map snd (find (fun e => p (snd e)) m).
Proof.
  induction m as [| [k0 v0] m IH]; cbn; [reflexivity |].
  destruct (p v0); [reflexivity | exact IH].
Qed.

End Facts.
End JsMapFacts.

(** ** Colours *)

Lemma random_index_range (rnd : Q) :
  unit_draw rnd ->
  0 <= Qfloor (rnd * inject_Z (Z.of_nat (List.length colors))) < 8.
Proof.
  intros [Hlo Hhi]. change (inject_Z (Z.of_nat (List.length colors))) with 8%Q.
  split.
  - change 0 with (Qfloor 0). apply Qfloor_resp_le.
    apply Qmult_le_0_compat; [exact Hlo | discriminate].
  - rewrite Zlt_Qlt. apply Qle_lt_trans with (y := (rnd * 8)%Q).
    + apply Qfloor_le.
    + change (inject_Z 8) with (1 * 8)%Q.
      apply Qmult_lt_compat_r; [reflexivity | exact Hhi].
Qed.

Lemma getRandomColor_in_palette (rnd : Q) :
  unit_draw rnd -> In (getRandomColor rnd) colors.
Proof.
  intros H. apply random_index_range in H. unfold getRandomColor.
  set (i := Qfloor _) in *. clearbody i.
  destruct (Z.ltb_spec i 0) as [Hneg | _]; [lia |].
  assert (Hi : (Z.to_nat i < List.length colors)%nat)
    by (change (List.length colors) with 8%nat; lia).
  apply nth_In, Hi.
Qed.

(** ** The expiry sweep *)

Section Sweep.
Import JsMap JsMapFacts.

Lemma filter_filter_andb {A} (p q : A -> bool) (l : list A) :
  filter p (filter q l) = filter (fun x => q x && p x) l.
Proof.
  induction l as [| x l IH]; cbn; [reflexivity |].
  destruct (q x); cbn; [destruct (p x) |]; now rewrite IH.
Qed.

Lemma filter_all {A} (p : A -> bool) (l : list A) :
  (forall x, In x l -> p x = true) -> filter p l = l.
Proof.
  induction l as [| x l IH]; cbn; [reflexivity |].
  intros H. rewrite (H x) by now left. f_equal. apply IH. auto.
Qed.

(** A property of maps that deletions keep is kept by the sweep. *)
Lemma sweep_ind (P : JsMap.t User.t -> Prop) (now : Z) (m : JsMap.t User.t) :
  (forall k m', P m' -> P (delete k m')) -> P m -> P (sweep now m).
Proof.
  intros Hdel. unfold sweep, entries.
  assert (Hfold : forall l acc, P acc ->
            P (fold_left
                 (fun acc e =>
                    if now - User.lastSeen (snd e) >? timeout
                    then delete (fst e) acc else acc) l acc)).
  { induction l as [| e l IH]; intros acc Hacc; cbn; [exact Hacc |].
    apply IH. destruct (_ >? _); [apply Hdel |]; exact Hacc. }
  apply Hfold.
Qed.

Lemma sweep_fold (now : Z) (l acc : JsMap.t User.t) :
  fold_left
    (fun acc e =>
       if now - User.lastSeen (snd e) >? timeout
       then delete (fst e) acc else acc) l acc
  = filter
      (fun e => negb (existsb (fun e' => expired now (snd e')
                                         && String.eqb (fst e) (fst e')) l))
      acc.
Proof.
  revert acc. induction l as [| e0 l IH]; intros acc; cbn [fold_left existsb].
  - symmetry. apply filter_all. reflexivity.
  - rewrite IH. fold (expired now (snd e0)).
    destruct (expired now (snd e0)); cbn [andb orb].
    + unfold delete. rewrite filter_filter_andb. apply filter_ext.
      intros e. now rewrite negb_orb.
    + reflexivity.
Qed.

(** With no key twice, the sweep keeps exactly the entries whose user is
    not expired, as they are and in their order. *)
Lemma sweep_filter (now : Z) (m : JsMap.t User.t) :
  NoDup (keys m) ->
  sweep now m = filter (fun e => negb (expired now (snd e))) m.
Proof.
  intros Hnd. unfold sweep, entries. rewrite sweep_fold.
  apply filter_ext_in. intros [k u] Hin. f_equal. cbn [fst snd].
  destruct (expired now u) eqn:Hexp.
  - apply existsb_exists. exists (k, u). cbn [fst snd].
    now rewrite Hexp, String.eqb_refl.
  - destruct (existsb _ m) eqn:Hex; [| reflexivity].
    apply existsb_exists in Hex as ([k' u'] & Hin' & Hb). cbn [fst snd] in Hb.
    apply andb_true_iff in Hb as [Hexp' Hk]. apply String.eqb_eq in Hk. subst k'.
    pose proof (In_get _ _ _ Hnd Hin) as H1.
    pose proof (In_get _ _ _ Hnd Hin') as H2.
    congruence.
Qed.

End Sweep.

(** ** What a call does to the users *)

Section Users.
Import JsMap JsMapFacts.

Lemma same_identity_refl (u : User.t) : same_identity u u.
Proof. repeat split. Qed.

Lemma same_identity_setLastSeen (now : Z) (u : User.t) :
  same_identity u (User.setLastSeen now u).
Proof. repeat split. Qed.

Lemma getStats_fst now s : fst (getStats now s) = fst (getOnlineUsers now s).
Proof. reflexivity. Qed.

Lemma findByUsername_findEntry username s :
  findByUsername username s = option_map snd (findEntry username (users s)).
Proof. apply find_values. Qed.

Lemma findByUsername_None username s k u :
  findByUsername username s = None -> In (k, u) (users s) ->
  User.username u <> username.
Proof.
  intros Hnone Hin Heq. unfold findByUsername in Hnone.
  eapply find_none in Hnone; [| apply in_map_iff; exists (k, u); eauto].
  unfold has_username in Hnone. cbn in Hnone.
  apply String.eqb_neq in Hnone. contradiction.
Qed.

(** Every record of the map after a call is a record of the map before
    it, under the same key and changed in [lastSeen] at most, or is the
    record that the call has created, under its id. *)
Lemma exec_users_provenance (c : Call) (s : ChatStore) k u' :
  In (k, u') (users (exec c s)) ->
  (exists u, In (k, u) (users s) /\ same_identity u u')
  \/ (created_user c s = Some u' /\ k = User.id u').
Proof.
  destruct c; cbn [exec created_user].
  - unfold addUser. destruct (findByUsername username s) eqn:Hfind;
      cbn [fst snd users].
    + intros Hin. left. apply In_modify_first in Hin as (u & Hu & [-> | ->]);
        exists u; auto using same_identity_refl, same_identity_setLastSeen.
    + intros Hin. apply In_set in Hin as [[= -> ->] | Hin].
      * right. split; reflexivity.
      * left. exists u'. auto using same_identity_refl.
  - cbn. intros Hin. apply In_delete in Hin as [Hin _].
    left. exists u'. auto using same_identity_refl.
  - cbn [getOnlineUsers fst users]. intros Hin. left. exists u'.
    split; [| apply same_identity_refl]. revert Hin.
    apply (sweep_ind (fun m' => In (k, u') m' -> In (k, u') (users s)));
      [| auto].
    intros k' m' IH Hin. apply In_delete in Hin as [Hin _]. auto.
  - unfold updateUserSeen. destruct (get userId (users s)); cbn [users].
    + intros Hin. left. apply In_modify in Hin as (u & Hu & [-> | ->]);
        exists u; auto using same_identity_refl, same_identity_setLastSeen.
    + intros Hin. left. exists u'. auto using same_identity_refl.
  - cbn. intros Hin. left. exists u'. auto using same_identity_refl.
  - cbn. intros Hin. left. exists u'. auto using same_identity_refl.
  - rewrite getStats_fst. cbn [getOnlineUsers fst users].
    intros Hin. left. exists u'.
    split; [| apply same_identity_refl]. revert Hin.
    apply (sweep_ind (fun m' => In (k, u') m' -> In (k, u') (users s)));
      [| auto].
    intros k' m' IH Hin. apply In_delete in Hin as [Hin _]. auto.
Qed.

Lemma exec_NoDup_keys (c : Call) (s : ChatStore) :
  NoDup (keys (users s)) -> NoDup (keys (users (exec c s))).
Proof.
  intros Hnd. destruct c; cbn [exec].
  - unfold addUser. destruct (findByUsername username s); cbn [fst users].
    + now rewrite keys_modify_first.
    + now apply NoDup_set.
  - now apply NoDup_delete.
  - cbn [getOnlineUsers fst users].
    apply (sweep_ind (fun m' => NoDup (keys m'))); [| exact Hnd].
    intros k m'. apply NoDup_delete.
  - unfold updateUserSeen. destruct (get userId (users s)); cbn [users].
    + now rewrite keys_modify.
    + exact Hnd.
  - exact Hnd.
  - exact Hnd.
  - rewrite getStats_fst. cbn [getOnlineUsers fst users].
    apply (sweep_ind (fun m' => NoDup (keys m'))); [| exact Hnd].
    intros k m'. apply NoDup_delete.
Qed.

Lemma exec_keys_are_ids (c : Call) (s : ChatStore) :
  keys_are_ids (users s) -> keys_are_ids (users (exec c s)).
Proof.
  unfold keys_are_ids. rewrite !Forall_forall. intros H [k u'] Hin.
  cbn [fst snd].
  apply exec_users_provenance in Hin as [(u & Hu & Hid & _) | [_ ->]];
    [| reflexivity].
  rewrite Hid. exact (H _ Hu).
Qed.

Lemma exec_well_formed (c : Call) (s : ChatStore) :
  well_formed s -> well_formed (exec c s).
Proof.
  intros [Hnd Hids]. split; [apply exec_NoDup_keys | apply exec_keys_are_ids];
    assumption.
Qed.

Lemma run_well_formed (cs : list Call) (s : ChatStore) :
  well_formed s -> well_formed (run cs s).
Proof.
  revert s. induction cs as [| c cs IH]; intros s H; [exact H |].
  apply IH, exec_well_formed, H.
Qed.

Lemma emptyStore_well_formed : well_formed emptyStore.
Proof. split; constructor. Qed.

Lemma reachable_well_formed (s : ChatStore) : reachable s -> well_formed s.
Proof.
  induction 1; [apply emptyStore_well_formed | now apply exec_well_formed].
Qed.

Lemma distinct_NoDup (l : list string) : distinct l = true -> NoDup l.
Proof.
  induction l as [| x l IH]; cbn; [constructor |].
  intros H. apply andb_true_iff in H as [Hx Hl].
  constructor; [| apply IH, Hl].
  intros Hin. apply negb_true_iff in Hx.
  assert (Hex : existsb (String.eqb x) l = true)
    by (apply existsb_exists; exists x; split; [exact Hin | apply String.eqb_refl]).
  congruence.
Qed.

Lemma well_formedb_sound (s : ChatStore) :
  well_formedb s = true -> well_formed s.
Proof.
  unfold well_formedb. intros H. apply andb_true_iff in H as [Hd Hf].
  split; [apply distinct_NoDup, Hd |].
  unfold keys_are_ids. apply Forall_forall. intros e He.
  rewrite forallb_forall in Hf. apply String.eqb_eq, Hf, He.
Qed.

Lemma created_user_palette (c : Call) (s : ChatStore) (u : User.t) :
  valid_call c -> created_user c s = Some u -> In (User.color u) colors.
Proof.
  destruct c; cbn [created_user valid_call]; try discriminate.
  unfold addUser. destruct (findByUsername username s); [discriminate |].
  intros Hrnd [= <-]. cbn [snd User.color]. apply getRandomColor_in_palette, Hrnd.
Qed.

Lemma exec_palette (c : Call) (s : ChatStore) :
  valid_call c -> palette_colors (users s) -> palette_colors (users (exec c s)).
Proof.
  unfold palette_colors. rewrite !Forall_forall. intros Hc H [k u'] Hin.
  cbn [snd].
  apply exec_users_provenance in Hin as [(u & Hu & _ & _ & Hcol) | [Hnew _]].
  - rewrite Hcol. exact (H _ Hu).
  - eapply created_user_palette; eassumption.
Qed.

Lemma reachable_palette (s : ChatStore) :
  reachable s -> palette_colors (users s).
Proof. induction 1; [constructor | now apply exec_palette]. Qed.

End Users.

(** ** Presence *)

Section Presence.
Import JsMap JsMapFacts.

Lemma values_filter {V} (p : V -> bool) (m : JsMap.t V) :
  values (filter (fun e => p (snd e)) m) = filter p (values m).
Proof.
  unfold values. induction m as [| [k v] m IH]; cbn; [reflexivity |].
  destruct (p v); cbn; now rewrite IH.
Qed.

Lemma In_values {V} (v : V) (m : JsMap.t V) :
  In v (values m) <-> exists k, In (k, v) m.
Proof.
  unfold values. rewrite in_map_iff. split.
  - intros ([k v'] & Heq & Hin). cbn in Heq. subst v'. now exists k.
  - intros (k & Hin). now exists (k, v).
Qed.

Lemma well_formed_key (s : ChatStore) k u :
  well_formed s -> In (k, u) (users s) -> k = User.id u.
Proof.
  intros [_ Hids] Hin. unfold keys_are_ids in Hids.
  rewrite Forall_forall in Hids. symmetry. exact (Hids _ Hin).
Qed.

Lemma well_formed_getUser (s : ChatStore) (u : User.t) :
  well_formed s -> In u (values (users s)) -> getUser (User.id u) s = Some u.
Proof.
  intros Hwf Hin. apply In_values in Hin as (k & Hin).
  rewrite <- (well_formed_key s k u Hwf Hin).
  apply In_get; [apply Hwf | exact Hin].
Qed.

End Presence.

(** C3. On a store whose map holds every user under its id, [getOnlineUsers]
    called at [now] leaves in the map exactly the entries whose user was
    seen at most 30000 ms before [now], as they were and in their order,
    and returns the users of these entries; a user seen more than 30000 ms
    before [now] is gone from the map, [getUser] of its id returns nothing
    afterwards, and it is not in the list returned; a user seen within the
    window is still found by [getUser], unchanged; the log is untouched. *)
Theorem getOnlineUsers_sweeps (now : Z) (s : ChatStore) :
  well_formed s ->
  let r := getOnlineUsers now s in
  users (fst r) = filter (fun e => negb (expired now (snd e))) (users s)
  /\ snd r = JsMap.values (users (fst r))
  /\ snd r = filter (fun u => negb (expired now u)) (JsMap.values (users s))
  /\ (forall u, In u (JsMap.values (users s)) ->
        now - User.lastSeen u > 30000 ->
        getUser (User.id u) (fst r) = None /\ ~ In u (snd r))
  /\ (forall u, In u (JsMap.values (users s)) ->
        now - User.lastSeen u <= 30000 ->
        getUser (User.id u) (fst r) = Some u /\ In u (snd r))
  /\ getMessages (fst r) = getMessages s.
Proof.
  intros Hwf r.
  assert (Hwf' : well_formed (fst r))
    by exact (exec_well_formed (CallGetOnlineUsers now) s Hwf).
  assert (Husers : users (fst r)
                   = filter (fun e => negb (expired now (snd e))) (users s))
    by (apply sweep_filter, Hwf).
  assert (Hlist : snd r
                  = filter (fun u => negb (expired now u)) (JsMap.values (users s))).
  { change (snd r) with (JsMap.values (users (fst r))).
    rewrite Husers. apply (values_filter (fun u => negb (expired now u))). }
  split; [exact Husers |]. split; [reflexivity |]. split; [exact Hlist |].
  split; [| split; [| reflexivity]].
  - intros u Hin Hold.
    assert (Hexp : expired now u = true)
      by (unfold expired, timeout; apply Z.gtb_lt; lia).
    assert (Hout : ~ In u (snd r)).
    { rewrite Hlist, filter_In, Hexp. intros [_ H]. discriminate. }
    split; [| exact Hout].
    destruct (getUser (User.id u) (fst r)) as [u' |] eqn:Hget; [| reflexivity].
    exfalso. apply JsMapFacts.get_In in Hget.
    assert (Hin' : In (User.id u, u') (users s))
      by (rewrite Husers in Hget; apply filter_In in Hget; tauto).
    pose proof (well_formed_getUser s u Hwf Hin) as H1.
    pose proof (JsMapFacts.In_get _ _ _ (proj1 Hwf) Hin') as H2.
    unfold getUser in H1. assert (u' = u) by congruence. subst u'.
    apply Hout. change (snd r) with (JsMap.values (users (fst r))).
    apply In_values. eauto.
  - intros u Hin Hfresh.
    assert (Hexp : expired now u = false).
    { unfold expired, timeout. destruct (Z.gtb_spec (now - User.lastSeen u) 30000);
        [lia | reflexivity]. }
    assert (Hkept : In u (snd r))
      by (rewrite Hlist, filter_In, Hexp; auto).
    split; [| exact Hkept].
    apply well_formed_getUser; [exact Hwf' | exact Hkept].
Qed.

(** Alice joins at 0, Bob at 20000; the sweep runs at 30001. *)
Lemma getOnlineUsers_sweeps_witness :
  let s := run [CallAddUser 0 "0.4fzyo82mvyr" (1 # 2) "Alice";
                CallAddUser 20000 "0.k9x2m4q7w1e" (1 # 4) "Bob"] emptyStore in
  well_formed s
  /\ snd (getOnlineUsers 30001 s)
     = [User.mk "k9x2m4q7w" "Bob" "#2ecc71" 20000]
  /\ getUser "4fzyo82mv" (fst (getOnlineUsers 30001 s)) = None.
Proof.
  intros s.
  assert (Hwf : well_formed s) by (apply well_formedb_sound; reflexivity).
  split; [exact Hwf |].
  destruct (getOnlineUsers_sweeps 30001 s Hwf) as (_ & _ & Hlist & Hgone & _).
  split; [rewrite Hlist; reflexivity |].
  apply (Hgone (User.mk "4fzyo82mv" "Alice" "#f39c12" 0)).
  - left. reflexivity.
  - reflexivity.
Defined.

(** ** Statistics *)

Lemma count_user_messages_filter (l : list Message.t) :
  List.length (filter is_user_message l) = count_user_messages l.
Proof.
  induction l as [| m l IH]; cbn; [reflexivity |].
  unfold is_user_message at 1. destruct (Message.type m); cbn; now rewrite IH.
Qed.

(** C5. [getStats] called at [now] returns as [totalMessages] the length of
    the log, as [userMessages] the number of entries of the log whose type
    is [user], and as [onlineUsers] the length of the list that
    [getOnlineUsers] returns at [now]; the store it leaves is the one that
    this [getOnlineUsers] leaves. *)
Theorem getStats_counts (now : Z) (s : ChatStore) :
  let st := snd (getStats now s) in
  totalMessages st = List.length (getMessages s)
  /\ totalMessages st = List.length (getMessages (fst (getStats now s)))
  /\ userMessages st = count_user_messages (getMessages s)
  /\ userMessages st
     = List.length (filter (fun m => MessageType_eqb (Message.type m) type_user)
                           (getMessages s))
  /\ onlineUsers st = List.length (snd (getOnlineUsers now s))
  /\ fst (getStats now s) = fst (getOnlineUsers now s).
Proof.
  cbn zeta. unfold getStats, getMessages. cbn [getOnlineUsers fst snd messages
    totalMessages userMessages onlineUsers].
  repeat split. apply count_user_messages_filter.
Qed.

(** ** Leaving *)

(** C7. [removeUser userId] leaves no record under [userId] (none with this
    id, as the map holds every user under its id), keeps every other entry
    of the map as it is and in its order, and keeps the log;
    when there is no record under [userId] the store is unchanged; a second
    [removeUser userId] changes nothing.  The operation is a total function:
    it has no error to raise. *)
Theorem removeUser_idempotent (userId : string) (s : ChatStore) :
  getUser userId (removeUser userId s) = None
  /\ users (removeUser userId s)
     = filter (fun e => negb (String.eqb (fst e) userId)) (users s)
  /\ (forall k, k <> userId -> getUser k (removeUser userId s) = getUser k s)
  /\ getMessages (removeUser userId s) = getMessages s
  /\ (getUser userId s = None -> removeUser userId s = s)
  /\ removeUser userId (removeUser userId s) = removeUser userId s
  /\ (well_formed s ->
      forall u, In u (JsMap.values (users (removeUser userId s))) ->
                User.id u <> userId).
Proof.
  split; [apply JsMapFacts.get_delete_eq |].
  split; [reflexivity |].
  split; [intros k Hk; apply JsMapFacts.get_delete_ne, Hk |].
  split; [reflexivity |].
  split; [| split].
  - unfold getUser, removeUser. intros Habs.
    rewrite JsMapFacts.delete_absent by exact Habs.
    destruct s; reflexivity.
  - unfold removeUser. cbn [users messages].
    now rewrite JsMapFacts.delete_idempotent.
  - intros Hwf u Hin. apply In_values in Hin as (k & Hin).
    apply JsMapFacts.In_delete in Hin as [Hin Hne]. cbn [fst] in Hne.
    now rewrite <- (well_formed_key s k u Hwf Hin).
Qed.

(** ** System messages *)

(** C9. [addSystemMessage content] is [addMessage "System" content "#666666"
    "system"]: both return the same message, whose author is "System",
    whose type is [system] and whose colour is the neutral colour, and both
    leave the same store, the one of the specification's wording (the
    message appended, the oldest entry evicted if the log then holds more
    than 100); the service's [createSystemMessage] followed by its
    [addMessage] builds the same message and the same log. *)
Theorem addSystemMessage_is_addMessage (now : Z) (r36 content : string)
    (s : ChatStore) :
  addSystemMessage now r36 content s
  = addMessage now r36 "System" content neutralColor (Some type_system) s
  /\ addSystemMessage now r36 content s = spec_addSystemMessage now r36 content s
  /\ snd (addSystemMessage now r36 content s)
     = Message.mk (generateId r36) "System" content now type_system "#666666"
  /\ snd (addSystemMessage now r36 content s)
     = ChatService.createSystemMessage now r36 content
  /\ getMessages (fst (addSystemMessage now r36 content s))
     = ChatService.addMessage (ChatService.createSystemMessage now r36 content)
                              (getMessages s)
  /\ users (fst (addSystemMessage now r36 content s)) = users s.
Proof.
  split; [reflexivity |]. split; [| repeat split].
  unfold addSystemMessage, addMessage, spec_addSystemMessage, push, shift,
    neutralColor.
  rewrite !length_app. cbn [List.length].
  destruct (Z.gtb_spec (Z.of_nat (List.length (messages s) + 1)) 100) as [H | H];
    destruct (Nat.ltb_spec 100 (List.length (messages s) + 1)) as [H' | H'];
    try lia; reflexivity.
Qed.

(** ** The map is keyed by id *)

Lemma reachable_run (cs : list Call) (s : ChatStore) :
  Forall valid_call cs -> reachable s -> reachable (run cs s).
Proof.
  revert s. induction cs as [| c cs IH]; intros s Hcs Hs; [exact Hs |].
  inversion Hcs; subst. apply IH; [assumption |].
  apply reachable_exec; assumption.
Qed.

Lemma findEntry_In username m k u :
  findEntry username m = Some (k, u) ->
  In (k, u) m /\ User.username u = username.
Proof.
  intros H. apply find_some in H as [Hin Hp]. split; [exact Hin |].
  apply String.eqb_eq, Hp.
Qed.

(** The record that [addUser] returns is the one that the map then holds
    under its id. *)
Lemma addUser_getUser now r36 rnd username s :
  well_formed s ->
  getUser (User.id (snd (addUser now r36 rnd username s)))
          (fst (addUser now r36 rnd username s))
  = Some (snd (addUser now r36 rnd username s)).
Proof.
  intros Hwf. unfold addUser, getUser.
  rewrite findByUsername_findEntry.
  destruct (findEntry username (users s)) as [[k u] |] eqn:Hfind;
    cbn [option_map fst snd users].
  - pose proof (findEntry_In _ _ _ _ Hfind) as [Hin _].
    rewrite (JsMapFacts.modify_first_modify _ _ k u) by (apply Hwf || exact Hfind).
    cbn [User.setLastSeen User.id].
    rewrite <- (well_formed_key s k u Hwf Hin).
    rewrite JsMapFacts.get_modify, String.eqb_refl.
    rewrite (JsMapFacts.In_get _ _ _ (proj1 Hwf) Hin). reflexivity.
  - apply JsMapFacts.get_set_eq.
Qed.

(** C10. In every state of the store of a running process the map holds no
    key twice and every record under its own id; every call keeps this;
    the record that [addUser] returns, and every record that
    [getOnlineUsers] returns, is what [getUser] of its id returns next. *)
Theorem users_keyed_by_id (s : ChatStore) :
  reachable s ->
  well_formed s
  /\ (forall k u, In (k, u) (users s) -> User.id u = k)
  /\ (forall k u, getUser k s = Some u -> User.id u = k)
  /\ (forall c, well_formed (exec c s))
  /\ (forall now r36 rnd username,
        let r := addUser now r36 rnd username s in
        getUser (User.id (snd r)) (fst r) = Some (snd r))
  /\ (forall now u,
        let r := getOnlineUsers now s in
        In u (snd r) -> getUser (User.id u) (fst r) = Some u).
Proof.
  intros Hr. pose proof (reachable_well_formed s Hr) as Hwf.
  split; [exact Hwf |].
  split; [intros k u Hin; symmetry; eapply well_formed_key; eassumption |].
  split.
  { intros k u Hget. apply JsMapFacts.get_In in Hget.
    symmetry. eapply well_formed_key; eassumption. }
  split; [intros c; apply exec_well_formed, Hwf |].
  split; [intros now r36 rnd username; apply addUser_getUser, Hwf |].
  intros now u r Hin.
  apply well_formed_getUser; [| exact Hin].
  exact (exec_well_formed (CallGetOnlineUsers now) s Hwf).
Qed.

Lemma half_is_unit_draw : unit_draw (1 # 2).
Proof. split; [discriminate | reflexivity]. Qed.

Lemma quarter_is_unit_draw : unit_draw (1 # 4).
Proof. split; [discriminate | reflexivity]. Qed.

Ltac valid_calls :=
  repeat first [apply Forall_nil | apply Forall_cons];
  first [exact I | exact half_is_unit_draw | exact quarter_is_unit_draw].

(** Alice and Bob have joined, Alice has said hi. *)
Lemma users_keyed_by_id_witness :
  let s := run [CallAddUser 0 "0.4fzyo82mvyr" (1 # 2) "Alice";
                CallAddSystemMessage 1 "0.h5tq0c3n8ab" "Alice joined the chat";
                CallAddMessage 2 "0.b7d1s6u4p2z" "Alice" "hi" "#f39c12" None;
                CallAddUser 3 "0.k9x2m4q7w1e" (1 # 4) "Bob"] emptyStore in
  reachable s
  /\ well_formed s
  /\ getUser "4fzyo82mv" (fst (addUser 9 "0.zzz" (1 # 2) "Alice" s))
     = Some (User.mk "4fzyo82mv" "Alice" "#f39c12" 9).
Proof.
  intros s.
  assert (Hr : reachable s).
  { apply reachable_run; [| constructor].
    valid_calls. }
  split; [exact Hr |].
  destruct (users_keyed_by_id s Hr) as (Hwf & _ & _ & _ & Hadd & _).
  split; [exact Hwf |].
  exact (Hadd 9 "0.zzz" (1 # 2) "Alice").
Defined.

(** ** Colours of the users *)

(** C8. In every state of the store of a running process every user of the
    map has a colour of the palette; and after any call every record of the
    map is either a record that the map held before the call under the same
    key, with the same id, username and colour, or the record that the call
    has just created, whose colour is drawn from the palette.  So the record
    that [getUser] finds for a user after a call has the colour it had
    before. *)
Theorem colors_from_palette_immutable (s : ChatStore) :
  reachable s ->
  (forall k u, In (k, u) (users s) -> In (User.color u) colors)
  /\ (forall k u, getUser k s = Some u -> In (User.color u) colors)
  /\ (forall c k u',
        In (k, u') (users (exec c s)) ->
        (exists u, In (k, u) (users s) /\ same_identity u u')
        \/ (created_user c s = Some u' /\ k = User.id u'
            /\ (valid_call c -> In (User.color u') colors)))
  /\ (forall c k u u',
        getUser k s = Some u -> getUser k (exec c s) = Some u' ->
        User.username u' = User.username u ->
        User.color u' = User.color u /\ User.id u' = User.id u).
Proof.
  intros Hr. pose proof (reachable_well_formed s Hr) as Hwf.
  pose proof (reachable_palette s Hr) as Hpal.
  unfold palette_colors in Hpal. rewrite Forall_forall in Hpal.
  split; [intros k u Hin; exact (Hpal _ Hin) |].
  split; [intros k u Hget; exact (Hpal _ (JsMapFacts.get_In _ _ _ Hget)) |].
  split.
  - intros c k u' Hin.
    apply exec_users_provenance in Hin as [Hold | [Hnew Hk]]; [now left |].
    right. split; [exact Hnew |]. split; [exact Hk |].
    intros Hc. eapply created_user_palette; eassumption.
  - intros c k u u' Hget Hget' Hname.
    apply JsMapFacts.get_In in Hget'.
    apply exec_users_provenance in Hget' as [(u0 & Hin0 & Hid & _ & Hcol) | [Hnew _]].
    + pose proof (JsMapFacts.In_get _ _ _ (proj1 Hwf) Hin0) as Hget0.
      unfold getUser in Hget. assert (u0 = u) by congruence. subst u0. auto.
    + exfalso. destruct c; cbn [created_user] in Hnew; try discriminate.
      destruct (findByUsername username s) eqn:Hfind; [discriminate |].
      injection Hnew as <-. unfold addUser in Hname. rewrite Hfind in Hname.
      cbn [snd User.username] in Hname.
      apply JsMapFacts.get_In in Hget.
      eapply findByUsername_None; eauto.
Qed.

Lemma colors_from_palette_immutable_witness :
  let s := run [CallAddUser 0 "0.4fzyo82mvyr" (1 # 2) "Alice";
                CallAddUser 3 "0.k9x2m4q7w1e" (1 # 4) "Bob"] emptyStore in
  reachable s
  /\ In (User.color (User.mk "k9x2m4q7w" "Bob" "#2ecc71" 3)) colors.
Proof.
  intros s.
  assert (Hr : reachable s).
  { apply reachable_run; [| constructor].
    valid_calls. }
  split; [exact Hr |].
  destruct (colors_from_palette_immutable s Hr) as (_ & Hget & _).
  apply (Hget "k9x2m4q7w"). reflexivity.
Defined.

(** ** Message ids *)

Lemma history_ids (cs : list Call) :
  map Message.id (history cs) = map generateId (message_draws cs).
Proof.
  unfold history, message_draws.
  induction cs as [| c cs IH]; cbn [flat_map]; [reflexivity |].
  rewrite !map_app, IH. destruct c; reflexivity.
Qed.

Lemma service_addMessage_suffix (m : Message.t) (l : list Message.t) :
  exists evicted, l ++ [m] = evicted ++ ChatService.addMessage m l.
Proof.
  unfold ChatService.addMessage, push, shift.
  destruct (_ >? _).
  - destruct (l ++ [m]) as [| x l'] eqn:E; [exists [] | exists [x]]; reflexivity.
  - exists []. reflexivity.
Qed.

(** A call keeps the messages that it retains as they are and in their
    order: the log after the call is the end of the log before it followed
    by the message created. *)
Lemma exec_messages_suffix (c : Call) (s : ChatStore) :
  exists evicted, messages s ++ created c = evicted ++ messages (exec c s).
Proof.
  rewrite exec_messages.
  destruct (created c) as [| m [| m' ms]] eqn:Hc.
  - exists []. cbn. apply app_nil_r.
  - cbn [fold_left]. apply service_addMessage_suffix.
  - destruct c; cbn in Hc; discriminate.
Qed.

Lemma run_empty_messages (cs : list Call) :
  messages (run cs emptyStore) = lastn 100 (history cs).
Proof. rewrite run_messages_lastn; [reflexivity | cbn; lia]. Qed.

Lemma NoDup_app_disjoint {A} (l1 l2 : list A) :
  NoDup (l1 ++ l2) ->
  NoDup l2 /\ forall x y, In x l1 -> In y l2 -> x <> y.
Proof.
  induction l1 as [| a l1 IH]; cbn.
  - intros H. split; [exact H | intros x y []].
  - intros H. inversion H as [| ? ? Hnotin Hnd]; subst.
    destruct (IH Hnd) as [Hl2 Hdis]. split; [exact Hl2 |].
    intros x y [<- | Hx] Hy.
    + intros ->. apply Hnotin, in_or_app. now right.
    + now apply Hdis.
Qed.

(** C6, as the code has it.  Every call keeps the retained messages as they
    are, ids included, and in their order; the id of a message is what
    [generateId] made of the draw of its call, and nothing compares it with
    the ids given before.  So along a run from the empty store the log is
    the end of the history of the messages created, and when the ids
    generated along the run are pairwise distinct, the messages ever created
    have pairwise distinct ids, so has the log, and no evicted message
    shares its id with a message of the log. *)
Theorem message_ids_stable (cs : list Call) :
  (forall c s, exists evicted,
      getMessages s ++ created c = evicted ++ getMessages (exec c s))
  /\ (forall c s m,
        In m (getMessages (exec c s)) -> In m (getMessages s) \/ In m (created c))
  /\ map Message.id (history cs) = map generateId (message_draws cs)
  /\ exists evicted,
       history cs = evicted ++ getMessages (run cs emptyStore)
       /\ (NoDup (map generateId (message_draws cs)) ->
           ids_never_reused cs
           /\ NoDup (map Message.id (getMessages (run cs emptyStore)))
           /\ forall e m, In e evicted -> In m (getMessages (run cs emptyStore)) ->
                          Message.id e <> Message.id m).
Proof.
  unfold getMessages.
  split; [exact exec_messages_suffix |].
  split.
  { intros c s m Hin. destruct (exec_messages_suffix c s) as (ev & Hev).
    apply in_app_or. rewrite Hev. apply in_or_app. now right. }
  split; [apply history_ids |].
  rewrite run_empty_messages.
  destruct (lastn_suffix 100 (history cs)) as (evicted & Hsplit & _).
  exists evicted. split; [exact Hsplit |].
  intros Hnd. rewrite <- history_ids in Hnd. unfold ids_never_reused.
  split; [exact Hnd |].
  rewrite Hsplit, map_app in Hnd.
  apply NoDup_app_disjoint in Hnd as [Hlog Hdis].
  split; [exact Hlog |].
  intros e m He Hm. apply Hdis; now apply in_map.
Qed.

Lemma message_ids_stable_witness :
  let cs := [CallAddSystemMessage 1 "0.h5tq0c3n8ab" "Alice joined the chat";
             CallAddMessage 2 "0.b7d1s6u4p2z" "Alice" "hi" "#f39c12" None] in
  NoDup (map generateId (message_draws cs)) /\ ids_never_reused cs.
Proof.
  intros cs.
  assert (Hnd : NoDup (map generateId (message_draws cs))).
  { apply distinct_NoDup. reflexivity. }
  split; [exact Hnd |].
  destruct (message_ids_stable cs) as (_ & _ & _ & evicted & _ & H).
  apply (H Hnd).
Defined.

(** Two draws that agree on their first nine digits give two messages the
    same id. *)
Lemma ids_never_reused_counterexample :
  let cs := [CallAddMessage 1 "0.4fzyo82mvyr" "Alice" "hi" "#e74c3c" None;
             CallAddMessage 2 "0.4fzyo82mvk3" "Bob" "ho" "#3498db" None] in
  map Message.id (getMessages (run cs emptyStore)) = ["4fzyo82mv"; "4fzyo82mv"]
  /\ ~ ids_never_reused cs.
Proof.
  intros cs. split; [reflexivity |].
  unfold ids_never_reused. intros H. inversion H as [| ? ? Hnotin _]; subst.
  apply Hnotin. left. reflexivity.
Qed.

(** ** The poll delta *)

Section Delta.
Context {A : Type} (p : A -> bool).

Lemma findIndex_ge (l : list A) : -1 <= findIndex p l.
Proof.
  induction l as [| x l IH]; cbn; [lia |].
  destruct (p x); [lia |].
  destruct (Z.ltb_spec (findIndex p l) 0); lia.
Qed.

Lemma findIndex_none (l : list A) :
  (forall x, In x l -> p x = false) -> findIndex p l = -1.
Proof.
  induction l as [| x l IH]; cbn; [reflexivity |].
  intros H. rewrite (H x) by now left.
  rewrite IH by auto. reflexivity.
Qed.

Lemma findIndex_first (l : list A) (i : nat) (x : A) :
  nth_error l i = Some x -> p x = true ->
  (forall j y, (j < i)%nat -> nth_error l j = Some y -> p y = false) ->
  findIndex p l = Z.of_nat i.
Proof.
  revert i. induction l as [| a l IH]; intros [| i]; cbn [nth_error findIndex];
    try discriminate.
  - intros [= ->] Hp _. now rewrite Hp.
  - intros Hnth Hp Hbefore.
    rewrite (Hbefore 0%nat a) by (lia || reflexivity).
    rewrite (IH i Hnth Hp).
    + destruct (Z.ltb_spec (Z.of_nat i) 0); lia.
    + intros j y Hj Hy. apply (Hbefore (S j) y); [lia | exact Hy].
Qed.

Lemma slice_after (l : list A) (i : nat) :
  slice (Z.of_nat i + 1) l = skipn (S i) l.
Proof.
  unfold slice. destruct (Z.ltb_spec (Z.of_nat i + 1) 0); [lia |].
  f_equal. lia.
Qed.

End Delta.

Lemma strict_eq_string_true (id : string) (v : JsValue) :
  strict_eq_string id v = true <-> v = JsString id.
Proof.
  destruct v; cbn; try (split; [discriminate | intros [=]]).
  rewrite String.eqb_eq. split; [now intros -> | now intros [= ->]].
Qed.

Lemma newMessages_absent (cursor : JsValue) (log : list Message.t) :
  truthy cursor = false -> newMessages cursor log = log.
Proof. intros H. unfold newMessages. now rewrite H. Qed.

Lemma newMessages_unknown (cursor : JsValue) (log : list Message.t) :
  (forall m, In m log -> strict_eq_string (Message.id m) cursor = false) ->
  newMessages cursor log = log.
Proof.
  intros H. unfold newMessages. destruct (truthy cursor); [| reflexivity].
  rewrite findIndex_none by exact H. reflexivity.
Qed.

Lemma newMessages_first (c : string) (log : list Message.t) (i : nat)
    (m : Message.t) :
  c <> "" -> nth_error log i = Some m -> Message.id m = c ->
  (forall j m', (j < i)%nat -> nth_error log j = Some m' -> Message.id m' <> c) ->
  newMessages (JsString c) log = skipn (S i) log.
Proof.
  intros Hc Hnth Hid Hbefore. unfold newMessages. cbn [truthy].
  apply String.eqb_neq in Hc. rewrite Hc. cbn [negb].
  rewrite (findIndex_first _ log i m Hnth).
  - destruct (Z.eqb_spec (Z.of_nat i) (-1)); [lia |]. apply slice_after.
  - cbn. apply String.eqb_eq, Hid.
  - intros j m' Hj Hm'. cbn. apply String.eqb_neq. eauto.
Qed.

Lemma NoDup_ids_first (log : list Message.t) (i j : nat) (m m' : Message.t) :
  NoDup (map Message.id log) ->
  nth_error log i = Some m -> nth_error log j = Some m' ->
  Message.id m' = Message.id m -> j = i.
Proof.
  intros Hnd Hi Hj Hid.
  apply (proj1 (NoDup_nth_error (map Message.id log)) Hnd).
  - rewrite length_map. apply nth_error_Some. congruence.
  - rewrite !nth_error_map, Hi, Hj. cbn. now rewrite Hid.
Qed.

Lemma updateUserSeen_messages now userId s :
  messages (updateUserSeen now userId s) = messages s.
Proof.
  unfold updateUserSeen. destruct (JsMap.get userId (users s)); reflexivity.
Qed.

Lemma poll_data_messages t1 t2 t3 body s :
  data_messages (snd (poll t1 t2 t3 body s))
  = newMessages (body_lastMessageId body) (getMessages s).
Proof.
  unfold poll, getMessages. cbn [getOnlineUsers getStats fst snd data_messages].
  f_equal.
  destruct (truthy (body_userId body)).
  - unfold updateUserSeenValue. destruct (body_userId body);
      try reflexivity. apply updateUserSeen_messages.
  - destruct (truthy (body_username body)); [| reflexivity].
    destruct (find _ _); [apply updateUserSeen_messages | reflexivity].
Qed.

(** C4, as the code has it.  The delta of a poll is computed from the log at
    the time of the call.  A cursor that is a non-empty string and is the id
    of a message of the log gives the messages after the first position
    that carries this id, and, when the ids of the log are pairwise
    distinct, after the position of the message; a cursor that is absent or
    falsy (undefined, null, the empty string, zero, false) gives the whole
    log, and so does a cursor that is the id of no message of the log. *)
Theorem poll_delta (t1 t2 t3 : Z) (body : PollBody) (s : ChatStore) :
  let cursor := body_lastMessageId body in
  let log := getMessages s in
  let delta := data_messages (snd (poll t1 t2 t3 body s)) in
  delta = newMessages cursor log
  /\ (forall c i m,
        cursor = JsString c -> c <> "" ->
        nth_error log i = Some m -> Message.id m = c ->
        (forall j m', (j < i)%nat -> nth_error log j = Some m' ->
                      Message.id m' <> c) ->
        delta = skipn (S i) log)
  /\ (forall c i m,
        cursor = JsString c -> c <> "" -> NoDup (map Message.id log) ->
        nth_error log i = Some m -> Message.id m = c ->
        delta = skipn (S i) log)
  /\ (truthy cursor = false -> delta = log)
  /\ ((forall m, In m log -> strict_eq_string (Message.id m) cursor = false) ->
      delta = log).
Proof.
  intros cursor log delta.
  assert (Hd : delta = newMessages cursor log) by apply poll_data_messages.
  split; [exact Hd |]. rewrite Hd.
  split.
  { intros c i m -> Hc Hnth Hid Hbefore. eapply newMessages_first; eassumption. }
  split.
  { intros c i m -> Hc Hnd Hnth Hid.
    apply (newMessages_first c log i m Hc Hnth Hid).
    intros j m' Hj Hm' Hid'.
    assert (j = i) by (eapply NoDup_ids_first; eauto; congruence). lia. }
  split; [apply newMessages_absent | apply newMessages_unknown].
Qed.

(** The log [m1, m2, m3] and the cursor [m1.id]. *)
Lemma poll_delta_witness :
  let s := run [CallAddSystemMessage 1 "0.h5tq0c3n8ab" "Alice joined the chat";
                CallAddMessage 2 "0.b7d1s6u4p2z" "Alice" "hi" "#f39c12" None;
                CallAddSystemMessage 3 "0.m2c8v5x1r9k" "Bob joined the chat"]
               emptyStore in
  let body := mkPollBody JsUndefined JsUndefined (JsString "h5tq0c3n8") in
  data_messages (snd (poll 4 5 6 body s)) = skipn 1 (getMessages s).
Proof.
  intros s body.
  destruct (poll_delta 4 5 6 body s) as (_ & _ & Hpos & _).
  apply (Hpos "h5tq0c3n8" 0%nat
           (Message.mk "h5tq0c3n8" "System" "Alice joined the chat" 1
                       type_system "#666666")).
  - reflexivity.
  - discriminate.
  - apply distinct_NoDup. reflexivity.
  - reflexivity.
  - reflexivity.
Defined.

(** A draw of zero prints as "0" and gives the empty id: polled with it as
    the cursor, the log [m1, m2, m3] comes back whole.  And of two messages
    with one id, the cursor finds the first. *)
Lemma delta_after_cursor_counterexample :
  let log := getMessages
               (run [CallAddMessage 1 "0" "Alice" "hi" "#e74c3c" None;
                     CallAddMessage 2 "0.b7d1s6u4p2z" "Bob" "ho" "#3498db" None;
                     CallAddMessage 3 "0.m2c8v5x1r9k" "Alice" "bye" "#e74c3c" None]
                    emptyStore) in
  let twins := getMessages
                 (run [CallAddMessage 1 "0.4fzyo82mvyr" "Alice" "hi" "#e74c3c" None;
                       CallAddMessage 2 "0.4fzyo82mvk3" "Bob" "ho" "#3498db" None]
                      emptyStore) in
  (newMessages (JsString "") log = log /\ ~ delta_after_cursor "" log)
  /\ (newMessages (JsString "4fzyo82mv") twins = skipn 1 twins
      /\ ~ delta_after_cursor "4fzyo82mv" twins).
Proof.
  intros log twins. split; (split; [reflexivity |]); intros H.
  - specialize (H 0%nat (Message.mk "" "Alice" "hi" 1 type_user "#e74c3c")
                  eq_refl eq_refl).
    discriminate H.
  - specialize (H 1%nat (Message.mk "4fzyo82mv" "Bob" "ho" 2 type_user "#3498db")
                  eq_refl eq_refl).
    discriminate H.
Qed.

(** ** Two joins under one name *)

Section Joins.
Import JsMap JsMapFacts.

Lemma has_username_setLastSeen n t u :
  has_username n (User.setLastSeen t u) = has_username n u.
Proof. reflexivity. Qed.

Lemma findEntry_modify_first_self n t m k u :
  findEntry n m = Some (k, u) ->
  findEntry n (modify_first (has_username n) (User.setLastSeen t) m)
  = Some (k, User.setLastSeen t u).
Proof.
  unfold findEntry.
  induction m as [| [k0 v0] m IH]; cbn [find modify_first snd];
    [discriminate |].
  destruct (has_username n v0) eqn:Hp; cbn [find snd].
  - rewrite has_username_setLastSeen, Hp. now intros [= -> ->].
  - rewrite Hp. exact IH.
Qed.

Lemma findEntry_set_new n m k v :
  findEntry n m = None -> has_username n v = true ->
  findEntry n (set k v m) = Some (k, v).
Proof.
  unfold findEntry. intros Hnone Hv.
  induction m as [| [k0 v0] m IH]; cbn [find set snd] in *; [now rewrite Hv |].
  destruct (has_username n v0) eqn:Hp; [discriminate |].
  destruct (String.eqb k0 k); cbn [find snd]; [now rewrite Hv |].
  rewrite Hp. apply IH, Hnone.
Qed.

Lemma findEntry_set_other n m k u k0 v0 :
  findEntry n m = Some (k, u) -> k0 <> k -> has_username n v0 = false ->
  findEntry n (set k0 v0 m) = Some (k, u).
Proof.
  unfold findEntry. intros Hfind Hne Hv0.
  induction m as [| [k1 v1] m IH]; cbn [find set snd] in *; [discriminate |].
  destruct (has_username n v1) eqn:Hp.
  - injection Hfind as -> ->.
    destruct (String.eqb_spec k k0); [congruence |]. cbn [find snd].
    now rewrite Hp.
  - destruct (String.eqb k1 k0); cbn [find snd].
    + now rewrite Hv0.
    + rewrite Hp. apply IH, Hfind.
Qed.

Lemma findEntry_modify_first n q t m k u :
  findEntry n m = Some (k, u) ->
  exists u', findEntry n (modify_first q (User.setLastSeen t) m) = Some (k, u').
Proof.
  unfold findEntry.
  induction m as [| [k0 v0] m IH]; cbn [find modify_first snd];
    [discriminate |].
  destruct (q v0); cbn [find snd]; rewrite ?has_username_setLastSeen;
    destruct (has_username n v0); eauto; intros [= -> ->]; eauto.
Qed.

Lemma findEntry_modify n k0 t m k u :
  findEntry n m = Some (k, u) ->
  exists u', findEntry n (modify k0 (User.setLastSeen t) m) = Some (k, u').
Proof.
  unfold findEntry.
  induction m as [| [k1 v1] m IH]; cbn [find modify snd]; [discriminate |].
  destruct (String.eqb k1 k0); cbn [find snd]; rewrite ?has_username_setLastSeen;
    destruct (has_username n v1); eauto; intros [= -> ->]; eauto.
Qed.

Lemma find_filter {A} (p q : A -> bool) (l : list A) (x : A) :
  find p l = Some x -> q x = true -> find p (filter q l) = Some x.
Proof.
  induction l as [| a l IH]; cbn; [discriminate |].
  destruct (p a) eqn:Hp.
  - intros [= ->] Hq. rewrite Hq. cbn. now rewrite Hp.
  - intros Hfind Hq. destruct (q a); cbn; [rewrite Hp |]; auto.
Qed.

Lemma addUser_joined now r36 rnd username s :
  well_formed s ->
  joined_as username (User.id (snd (addUser now r36 rnd username s)))
            (fst (addUser now r36 rnd username s)).
Proof.
  intros Hwf. unfold joined_as, addUser.
  rewrite findByUsername_findEntry.
  destruct (findEntry username (users s)) as [[k u] |] eqn:Hfind;
    cbn [option_map fst snd users User.id User.setLastSeen].
  - pose proof (findEntry_In _ _ _ _ Hfind) as [Hin _].
    rewrite <- (well_formed_key s k u Hwf Hin).
    eexists. apply findEntry_modify_first_self, Hfind.
  - eexists. apply findEntry_set_new; [exact Hfind |].
    unfold has_username. cbn. apply String.eqb_refl.
Qed.

(** A call that neither removes the user nor draws its id for a new
    record leaves the user where it is. *)
Lemma exec_joined (c : Call) (s : ChatStore) username userId :
  well_formed s -> joined_as username userId s ->
  removes userId c s = false -> collides userId c s = false ->
  joined_as username userId (exec c s).
Proof.
  intros Hwf [u Hfind] Hrem Hcol. unfold joined_as.
  pose proof (findEntry_In _ _ _ _ Hfind) as [Hin Hname].
  destruct c; cbn [exec removes collides] in *.
  - unfold addUser. destruct (findByUsername username0 s) eqn:Hother;
      cbn [fst users].
    + eapply findEntry_modify_first, Hfind.
    + exists u. apply findEntry_set_other; [exact Hfind | |].
      * apply String.eqb_neq, Hcol.
      * unfold has_username. cbn. apply String.eqb_neq. intros ->.
        eapply findByUsername_None; eauto.
  - exists u. cbn. unfold findEntry, delete. apply find_filter; [exact Hfind |].
    cbn. apply negb_true_iff. apply String.eqb_neq. intros ->.
    rewrite String.eqb_refl in Hrem. discriminate.
  - exists u. cbn [getOnlineUsers fst users].
    rewrite sweep_filter by apply Hwf.
    apply find_filter; [exact Hfind |]. cbn.
    unfold getUser in Hrem. rewrite (In_get _ _ _ (proj1 Hwf) Hin) in Hrem.
    now rewrite Hrem.
  - unfold updateUserSeen. destruct (get userId0 (users s)); cbn [users].
    + eapply findEntry_modify, Hfind.
    + eauto.
  - eauto.
  - eauto.
  - exists u. rewrite getStats_fst. cbn [getOnlineUsers fst users].
    rewrite sweep_filter by apply Hwf.
    apply find_filter; [exact Hfind |]. cbn.
    unfold getUser in Hrem. rewrite (In_get _ _ _ (proj1 Hwf) Hin) in Hrem.
    now rewrite Hrem.
Qed.

Lemma run_joined (cs : list Call) (s : ChatStore) username userId :
  well_formed s -> joined_as username userId s ->
  never (removes userId) cs s = true -> never (collides userId) cs s = true ->
  joined_as username userId (run cs s).
Proof.
  revert s. induction cs as [| c cs IH]; intros s Hwf Hj Hrem Hcol; [exact Hj |].
  cbn [never] in Hrem, Hcol.
  apply andb_true_iff in Hrem as [Hrem Hrem'].
  apply andb_true_iff in Hcol as [Hcol Hcol'].
  apply negb_true_iff in Hrem, Hcol.
  apply IH; auto using exec_well_formed, exec_joined.
Qed.

(** [addUser] of a name that has joined refreshes the record of the name
    and nothing else. *)
Lemma addUser_again now r36 rnd username userId s :
  well_formed s -> joined_as username userId s ->
  exists u,
    getUser userId s = Some u
    /\ User.id u = userId
    /\ snd (addUser now r36 rnd username s) = User.setLastSeen now u
    /\ users (fst (addUser now r36 rnd username s))
       = modify userId (User.setLastSeen now) (users s)
    /\ messages (fst (addUser now r36 rnd username s)) = messages s.
Proof.
  intros Hwf [u Hfind]. exists u.
  pose proof (findEntry_In _ _ _ _ Hfind) as [Hin _].
  unfold addUser, getUser. rewrite findByUsername_findEntry, Hfind.
  cbn [option_map fst snd users messages].
  split; [apply In_get; [apply Hwf | exact Hin] |].
  split; [symmetry; eapply well_formed_key; eassumption |].
  split; [reflexivity |].
  split; [| reflexivity].
  apply modify_first_modify with (v := u); [apply Hwf | exact Hfind].
Qed.

End Joins.

(** Two joins in a row, on any store: the second returns the id of the
    first and assigns to [lastSeen] of the record of the name, nothing
    else. *)
Lemma addUser_consecutive now1 r1 q1 now2 r2 q2 username s :
  let first := addUser now1 r1 q1 username s in
  let second := addUser now2 r2 q2 username (fst first) in
  User.id (snd second) = User.id (snd first)
  /\ snd second = User.setLastSeen now2 (snd first)
  /\ users (fst second)
     = JsMap.modify_first (has_username username) (User.setLastSeen now2)
                          (users (fst first))
  /\ JsMap.keys (users (fst second)) = JsMap.keys (users (fst first))
  /\ messages (fst second) = messages (fst first).
Proof.
  intros first second.
  assert (Hfound : exists k,
             findEntry username (users (fst first)) = Some (k, snd first)).
  { subst first. unfold addUser. rewrite findByUsername_findEntry.
    destruct (findEntry username (users s)) as [[k u] |] eqn:Hfind;
      cbn [option_map fst snd users].
    - exists k. apply findEntry_modify_first_self, Hfind.
    - eexists. apply findEntry_set_new; [exact Hfind |].
      unfold has_username. cbn. apply String.eqb_refl. }
  destruct Hfound as [k Hfound].
  subst second. unfold addUser at 1 2 3 4 5.
  rewrite findByUsername_findEntry, Hfound. cbn [option_map fst snd users messages].
  repeat split. apply JsMapFacts.keys_modify_first.
Qed.

(** C2, as the code has it.  On a store whose map holds every user under
    its id, take [addUser username], then any calls of which none removes
    the user (a [removeUser] of its id, a sweep that finds it expired) and
    none is an [addUser] that creates a record and draws the user's id for
    it, then [addUser username] again.  Both calls return the same id; the
    second returns the record that the map held under this id with
    [lastSeen] set to the time of the second call, which is not before the
    [lastSeen] set by the first when the clock has not gone back; in the
    map the second call changes this record and nothing else, it adds no
    key, and it leaves the log alone. *)
Theorem addUser_twice (now1 : Z) (r1 : string) (q1 : Q)
    (now2 : Z) (r2 : string) (q2 : Q) (username : string)
    (cs : list Call) (s : ChatStore) :
  well_formed s ->
  let first := addUser now1 r1 q1 username s in
  let s2 := run cs (fst first) in
  let second := addUser now2 r2 q2 username s2 in
  never (removes (User.id (snd first))) cs (fst first) = true ->
  never (collides (User.id (snd first))) cs (fst first) = true ->
  User.id (snd second) = User.id (snd first)
  /\ User.lastSeen (snd first) = now1
  /\ User.lastSeen (snd second) = now2
  /\ (now1 <= now2 -> User.lastSeen (snd first) <= User.lastSeen (snd second))
  /\ (exists u, getUser (User.id (snd first)) s2 = Some u
                /\ snd second = User.setLastSeen now2 u)
  /\ users (fst second)
     = JsMap.modify (User.id (snd first)) (User.setLastSeen now2) (users s2)
  /\ JsMap.keys (users (fst second)) = JsMap.keys (users s2)
  /\ (forall k, k <> User.id (snd first) ->
                getUser k (fst second) = getUser k s2)
  /\ getMessages (fst second) = getMessages s2.
Proof.
  intros Hwf first s2 second Hrem Hcol.
  assert (Hwf1 : well_formed (fst first))
    by exact (exec_well_formed (CallAddUser now1 r1 q1 username) s Hwf).
  assert (Hwf2 : well_formed s2) by apply run_well_formed, Hwf1.
  assert (Hj2 : joined_as username (User.id (snd first)) s2)
    by (apply run_joined; [exact Hwf1 | apply addUser_joined, Hwf
                          | exact Hrem | exact Hcol]).
  destruct (addUser_again now2 r2 q2 username _ s2 Hwf2 Hj2)
    as (u & Hget & Hid & Hsnd & Husers & Hmsgs).
  fold second in Hsnd, Husers, Hmsgs.
  assert (Hfirst : User.lastSeen (snd first) = now1).
  { subst first. unfold addUser. destruct (findByUsername username s); reflexivity. }
  assert (Hsecond : User.lastSeen (snd second) = now2) by now rewrite Hsnd.
  split; [rewrite Hsnd; exact Hid |].
  split; [exact Hfirst |]. split; [exact Hsecond |].
  split; [rewrite Hfirst, Hsecond; auto |].
  split; [exists u; auto |].
  split; [exact Husers |].
  split; [rewrite Husers; apply JsMapFacts.keys_modify |].
  split; [| exact Hmsgs].
  intros k Hk. unfold getUser. rewrite Husers, JsMapFacts.get_modify.
  destruct (String.eqb_spec (User.id (snd first)) k); [congruence | reflexivity].
Qed.

(** Alice joins, says hi, Bob joins, the users are listed, Alice joins
    again. *)
Lemma addUser_twice_witness :
  let cs := [CallAddMessage 1500 "0.b7d1s6u4p2z" "Alice" "hi" "#f39c12" None;
             CallAddUser 2000 "0.k9x2m4q7w1e" (1 # 4) "Bob";
             CallGetOnlineUsers 2500] in
  let first := addUser 1000 "0.4fzyo82mvyr" (1 # 2) "Alice" emptyStore in
  let second := addUser 3000 "0.m2c8v5x1r9k" (3 # 4) "Alice" (run cs (fst first)) in
  well_formed emptyStore
  /\ never (removes (User.id (snd first))) cs (fst first) = true
  /\ never (collides (User.id (snd first))) cs (fst first) = true
  /\ User.id (snd second) = User.id (snd first)
  /\ User.lastSeen (snd second) = 3000.
Proof.
  intros cs first second.
  assert (Hrem : never (removes (User.id (snd first))) cs (fst first) = true)
    by reflexivity.
  assert (Hcol : never (collides (User.id (snd first))) cs (fst first) = true)
    by reflexivity.
  split; [exact emptyStore_well_formed |].
  split; [exact Hrem |]. split; [exact Hcol |].
  destruct (addUser_twice 1000 "0.4fzyo82mvyr" (1 # 2) 3000 "0.m2c8v5x1r9k"
              (3 # 4) "Alice" cs emptyStore emptyStore_well_formed Hrem Hcol)
    as (Hid & _ & Hseen & _).
  split; [exact Hid | exact Hseen].
Defined.

(** Alice joins; Bob joins and his draw gives him the id of Alice, so that
    his record takes the place of hers; Alice joins again and is a new
    user. *)
Lemma same_id_twice_counterexample :
  let cs := [CallAddUser 2000 "0.4fzyo82mvk3" (1 # 4) "Bob"] in
  let first := addUser 1000 "0.4fzyo82mvyr" (1 # 2) "Alice" emptyStore in
  let second := addUser 3000 "0.m2c8v5x1r9k" (3 # 4) "Alice" (run cs (fst first)) in
  never (removes (User.id (snd first))) cs (fst first) = true
  /\ User.id (snd first) = "4fzyo82mv"
  /\ User.id (snd second) = "m2c8v5x1r"
  /\ ~ same_id_twice 1000 "0.4fzyo82mvyr" (1 # 2) 3000 "0.m2c8v5x1r9k" (3 # 4)
         "Alice" cs emptyStore.
Proof.
  intros cs first second.
  split; [reflexivity |]. split; [reflexivity |]. split; [reflexivity |].
  intros H. specialize (H eq_refl). discriminate H.
Qed.

(** ** The embedding on values *)

Example generateId_digits : generateId "0.4fzyo82mvyr" = "4fzyo82mv".
Proof. reflexivity. Qed.

Example generateId_short : generateId "0.i" = "i".
Proof. reflexivity. Qed.

Example generateId_zero : generateId "0" = "".
Proof. reflexivity. Qed.

Example getRandomColor_first : getRandomColor 0 = "#e74c3c".
Proof. reflexivity. Qed.

Example getRandomColor_last : getRandomColor (999 # 1000) = "#34495e".
Proof. reflexivity. Qed.

Example findIndex_hit : findIndex (Z.eqb 7) [5; 7; 9; 7] = 1.
Proof. reflexivity. Qed.

Example findIndex_miss : findIndex (Z.eqb 8) [5; 7; 9; 7] = -1.
Proof. reflexivity. Qed.

Example slice_tail : slice 2 [5; 7; 9; 7] = [9; 7].
Proof. reflexivity. Qed.

Example slice_from_end : slice (-1) [5; 7; 9; 7] = [7].
Proof. reflexivity. Qed.

Example set_replaces_in_place :
  JsMap.set "b" 20 [("a", 1); ("b", 2); ("c", 3)] = [("a", 1); ("b", 20); ("c", 3)]
  /\ JsMap.set "d" 4 [("a", 1); ("b", 2)] = [("a", 1); ("b", 2); ("d", 4)].
Proof. split; reflexivity. Qed.

(** ** A session *)

(** Alice joins at 0 and says hi, Bob joins at 10000: at 30000 both are
    online, at 30001 only Bob is. *)
Example session :
  let s := run [CallAddUser 0 "0.4fzyo82mvyr" (1 # 2) "Alice";
                CallAddSystemMessage 1 "0.h5tq0c3n8ab" "Alice joined the chat";
                CallAddMessage 2 "0.b7d1s6u4p2z" "Alice" "hi" "#f39c12" None;
                CallAddUser 10000 "0.k9x2m4q7w1e" (1 # 4) "Bob";
                CallAddSystemMessage 10001 "0.m2c8v5x1r9k" "Bob joined the chat"]
               emptyStore in
  map Message.content (getMessages s)
  = ["Alice joined the chat"; "hi"; "Bob joined the chat"]
  /\ map Message.type (getMessages s) = [type_system; type_user; type_system]
  /\ map User.username (snd (getOnlineUsers 30000 s)) = ["Alice"; "Bob"]
  /\ map User.username (snd (getOnlineUsers 30001 s)) = ["Bob"]
  /\ snd (getStats 30001 s) = mkStats 1 3 1.
Proof. repeat split. Qed.

(** * Further properties of the store *)

Section Names.
Import JsMap JsMapFacts.

Lemma names_modify_first p t m :
  names_of (modify_first p (User.setLastSeen t) m) = names_of m.
Proof.
  unfold names_of. induction m as [| [k u] m IH]; cbn; [reflexivity |].
  destruct (p u); cbn; [reflexivity | now rewrite IH].
Qed.

Lemma names_modify k t m :
  names_of (modify k (User.setLastSeen t) m) = names_of m.
Proof.
  unfold names_of. induction m as [| [k0 u] m IH]; cbn; [reflexivity |].
  destruct (String.eqb k0 k); cbn; [reflexivity | now rewrite IH].
Qed.

Lemma names_set_incl k u m n :
  In n (names_of (set k u m)) -> n = User.username u \/ In n (names_of m).
Proof.
  unfold names_of. intros Hin. apply in_map_iff in Hin as (e & <- & He).
  apply In_set in He as [-> | He]; [now left |].
  right. apply in_map_iff. eauto.
Qed.

Lemma NoDup_names_set k u m :
  NoDup (names_of m) -> ~ In (User.username u) (names_of m) ->
  NoDup (names_of (set k u m)).
Proof.
  induction m as [| [k0 u0] m IH]; cbn [set].
  - intros _ _. repeat constructor. intros [].
  - intros Hnd Hnew. inversion Hnd as [| ? ? Hhead Hnd']; subst.
    cbn [names_of map snd] in Hnew.
    destruct (String.eqb k0 k).
    + constructor; [| exact Hnd']. intros Hin. apply Hnew. now right.
    + constructor.
      * intros Hin. apply names_set_incl in Hin as [Heq | Hin].
        -- apply Hnew. left. cbn in Heq. now rewrite <- Heq.
        -- now apply Hhead.
      * apply IH; [exact Hnd' |]. intros Hin. apply Hnew. now right.
Qed.

Lemma NoDup_map_filter {X Y} (g : X -> Y) (keep : X -> bool) (xs : list X)
    (Hnd : NoDup (map g xs)) :
  NoDup (map g (filter keep xs)).
Proof.
  revert Hnd. induction xs as [| x xs IH]; cbn; [auto |].
  intros Hnd. inversion Hnd as [| ? ? Hx Hnd']; subst.
  destruct (keep x); cbn; [| auto].
  constructor; [| auto].
  intros Hin. apply Hx. apply in_map_iff in Hin as (y & Hy & Hin).
  apply filter_In in Hin as [Hin _]. apply in_map_iff. eauto.
Qed.

Lemma find_unique {A} (f : A -> string) (l : list A) (x : A) :
  NoDup (map f l) -> In x l ->
  find (fun y => String.eqb (f y) (f x)) l = Some x.
Proof.
  induction l as [| y l IH]; cbn; [tauto |].
  intros Hnd Hin. inversion Hnd as [| ? ? Hy Hnd']; subst.
  destruct Hin as [-> | Hin].
  - now rewrite String.eqb_refl.
  - destruct (String.eqb_spec (f y) (f x)) as [Heq | Hne].
    + exfalso. apply Hy. rewrite Heq. now apply in_map.
    + now apply IH.
Qed.

Lemma findByUsername_None_names username s :
  findByUsername username s = None -> ~ In username (names_of (users s)).
Proof.
  intros Hnone Hin. unfold names_of in Hin.
  apply in_map_iff in Hin as ([k u] & Hname & Hin). cbn in Hname.
  eapply findByUsername_None; eauto.
Qed.

Lemma exec_unique_usernames (c : Call) (s : ChatStore) :
  unique_usernames (users s) -> unique_usernames (users (exec c s)).
Proof.
  unfold unique_usernames. intros Hnd.
  destruct c; cbn [exec].
  - unfold addUser. destruct (findByUsername username s) eqn:Hfind;
      cbn [fst users].
    + now rewrite names_modify_first.
    + apply NoDup_names_set; [exact Hnd |]. cbn [User.username].
      apply findByUsername_None_names, Hfind.
  - cbn. apply NoDup_map_filter, Hnd.
  - cbn [getOnlineUsers fst users].
    apply (sweep_ind (fun m' => NoDup (names_of m'))); [| exact Hnd].
    intros k m' H. apply NoDup_map_filter, H.
  - unfold updateUserSeen. destruct (get userId (users s)); cbn [users];
      [now rewrite names_modify | exact Hnd].
  - exact Hnd.
  - exact Hnd.
  - rewrite getStats_fst. cbn [getOnlineUsers fst users].
    apply (sweep_ind (fun m' => NoDup (names_of m'))); [| exact Hnd].
    intros k m' H. apply NoDup_map_filter, H.
Qed.

Lemma reachable_unique_usernames (s : ChatStore) :
  reachable s -> unique_usernames (users s).
Proof.
  induction 1; [constructor | now apply exec_unique_usernames].
Qed.

End Names.

(** X1. In every state of the store of a running process no two users of
    the map have the same name: two entries with one name are one entry,
    and the lookup by name that the routes make finds each user of the map
    under its name. *)
Theorem usernames_unique (s : ChatStore) :
  reachable s ->
  unique_usernames (users s)
  /\ (forall k u k' u',
        In (k, u) (users s) -> In (k', u') (users s) ->
        User.username u = User.username u' -> k = k' /\ u = u')
  /\ (forall u, In u (JsMap.values (users s)) ->
                findByUsername (User.username u) s = Some u).
Proof.
  intros Hr. pose proof (reachable_unique_usernames s Hr) as Hnd.
  pose proof (reachable_well_formed s Hr) as Hwf.
  assert (Hfind : forall u, In u (JsMap.values (users s)) ->
                            findByUsername (User.username u) s = Some u).
  { intros u Hin. unfold findByUsername, has_username.
    apply (find_unique User.username); [| exact Hin].
    unfold unique_usernames, names_of in Hnd. unfold JsMap.values.
    rewrite map_map. exact Hnd. }
  split; [exact Hnd |]. split; [| exact Hfind].
  intros k u k' u' Hin Hin' Hname.
  assert (Hu : u = u').
  { assert (H1 : findByUsername (User.username u) s = Some u)
      by (apply Hfind, In_values; eauto).
    assert (H2 : findByUsername (User.username u') s = Some u')
      by (apply Hfind, In_values; eauto).
    congruence. }
  split; [| exact Hu]. subst u'.
  rewrite (well_formed_key s k u Hwf Hin).
  now rewrite (well_formed_key s k' u Hwf Hin').
Qed.

Lemma usernames_unique_witness :
  let s := run [CallAddUser 0 "0.4fzyo82mvyr" (1 # 2) "Alice";
                CallAddUser 3 "0.k9x2m4q7w1e" (1 # 4) "Bob";
                CallAddUser 5 "0.m2c8v5x1r9k" (3 # 4) "Alice"] emptyStore in
  reachable s
  /\ findByUsername "Alice" s = Some (User.mk "4fzyo82mv" "Alice" "#f39c12" 5).
Proof.
  intros s.
  assert (Hr : reachable s).
  { apply reachable_run; [| constructor].
    repeat first [apply Forall_nil | apply Forall_cons];
      cbn [valid_call]; split; (discriminate || reflexivity). }
  split; [exact Hr |].
  destruct (usernames_unique s Hr) as (_ & _ & Hfind).
  apply (Hfind (User.mk "4fzyo82mv" "Alice" "#f39c12" 5)).
  left. reflexivity.
Defined.

(** X2. After [addUser username], on any store, the lookup by name finds
    the record that the call has returned; the record has this name and was
    last seen at the time of the call. *)
Theorem addUser_then_find (now : Z) (r36 : string) (rnd : Q)
    (username : string) (s : ChatStore) :
  let r := addUser now r36 rnd username s in
  findByUsername username (fst r) = Some (snd r)
  /\ User.username (snd r) = username
  /\ User.lastSeen (snd r) = now.
Proof.
  intros r. subst r. unfold addUser.
  rewrite (findByUsername_findEntry username s).
  destruct (findEntry username (users s)) as [[k u] |] eqn:Hfind;
    cbn [option_map fst snd].
  - rewrite findByUsername_findEntry. cbn [users].
    rewrite (findEntry_modify_first_self _ now _ _ _ Hfind).
    apply findEntry_In in Hfind as [_ Hname].
    repeat split. exact Hname.
  - rewrite findByUsername_findEntry. cbn [users].
    rewrite findEntry_set_new;
      [repeat split | exact Hfind | apply String.eqb_refl].
Qed.

Section RoundTrip.
Import JsMap JsMapFacts.

Lemma set_absent {V} (k : string) (v : V) (m : JsMap.t V) :
  ~ In k (keys m) -> set k v m = m ++ [(k, v)].
Proof.
  induction m as [| [k0 v0] m IH]; cbn; [reflexivity |].
  intros Hnotin. destruct (String.eqb_spec k0 k) as [-> | Hne]; [tauto |].
  f_equal. apply IH. tauto.
Qed.

Lemma delete_set_absent {V} (k : string) (v : V) (m : JsMap.t V) :
  ~ In k (keys m) -> delete k (set k v m) = m.
Proof.
  intros Hnotin. rewrite set_absent by exact Hnotin.
  unfold delete. rewrite filter_app. cbn. rewrite String.eqb_refl. cbn.
  rewrite app_nil_r. apply delete_absent, get_None, Hnotin.
Qed.

End RoundTrip.

(** X3. A user with a new name whose id is not a key of the map goes to the
    end of the map, and [removeUser] of its id gives the store back as it
    was. *)
Theorem addUser_removeUser (now : Z) (r36 : string) (rnd : Q)
    (username : string) (s : ChatStore) :
  findByUsername username s = None ->
  ~ In (generateId r36) (JsMap.keys (users s)) ->
  let r := addUser now r36 rnd username s in
  users (fst r) = users s ++ [(generateId r36, snd r)]
  /\ removeUser (User.id (snd r)) (fst r) = s.
Proof.
  intros Hnew Hfresh r. subst r. unfold addUser. rewrite Hnew.
  cbn [fst snd users User.id]. split.
  - apply set_absent, Hfresh.
  - unfold removeUser. cbn [users messages].
    rewrite delete_set_absent by exact Hfresh. destruct s; reflexivity.
Qed.

Lemma addUser_removeUser_witness :
  let s := fst (addUser 0 "0.4fzyo82mvyr" (1 # 2) "Alice" emptyStore) in
  findByUsername "Bob" s = None
  /\ ~ In (generateId "0.k9x2m4q7w1e") (JsMap.keys (users s))
  /\ removeUser "k9x2m4q7w"
       (fst (addUser 3 "0.k9x2m4q7w1e" (1 # 4) "Bob" s)) = s.
Proof.
  intros s.
  assert (Hnew : findByUsername "Bob" s = None) by reflexivity.
  assert (Hfresh : ~ In (generateId "0.k9x2m4q7w1e") (JsMap.keys (users s))).
  { cbn. intros [H | []]. discriminate H. }
  split; [exact Hnew |]. split; [exact Hfresh |].
  apply (addUser_removeUser 3 "0.k9x2m4q7w1e" (1 # 4) "Bob" s Hnew Hfresh).
Defined.

(** X4. [updateUserSeen userId] on a store with no user under [userId]
    leaves the store as it is; with a user under [userId] it sets the
    [lastSeen] of this user and changes nothing else: the other users, the
    keys and their order, and the log stay. *)
Theorem updateUserSeen_refreshes (now : Z) (userId : string) (s : ChatStore) :
  (getUser userId s = None -> updateUserSeen now userId s = s)
  /\ (forall u, getUser userId s = Some u ->
        getUser userId (updateUserSeen now userId s)
        = Some (User.mk (User.id u) (User.username u) (User.color u) now))
  /\ (forall k, k <> userId ->
        getUser k (updateUserSeen now userId s) = getUser k s)
  /\ JsMap.keys (users (updateUserSeen now userId s)) = JsMap.keys (users s)
  /\ getMessages (updateUserSeen now userId s) = getMessages s.
Proof.
  unfold updateUserSeen, getUser, getMessages.
  destruct (JsMap.get userId (users s)) as [u0 |] eqn:Hget; cbn [users messages].
  - split; [discriminate |].
    split.
    { intros u [= <-]. rewrite JsMapFacts.get_modify, String.eqb_refl, Hget.
      reflexivity. }
    split.
    { intros k Hk. rewrite JsMapFacts.get_modify.
      destruct (String.eqb_spec userId k); [congruence | reflexivity]. }
    split; [apply JsMapFacts.keys_modify | reflexivity].
  - split; [reflexivity |]. split; [discriminate |]. repeat split.
Qed.

Section Online.
Import JsMap JsMapFacts.

Lemma getOnlineUsers_users now s :
  well_formed s ->
  users (fst (getOnlineUsers now s))
  = filter (fun e => negb (expired now (snd e))) (users s).
Proof. intros Hwf. apply sweep_filter, Hwf. Qed.

Lemma getOnlineUsers_list now s :
  well_formed s ->
  snd (getOnlineUsers now s)
  = filter (fun u => negb (expired now u)) (values (users s)).
Proof.
  intros Hwf. cbn [getOnlineUsers snd]. rewrite sweep_filter by apply Hwf.
  apply (values_filter (fun u => negb (expired now u))).
Qed.

Lemma not_expired now u :
  now - User.lastSeen u <= 30000 -> expired now u = false.
Proof.
  intros H. unfold expired, timeout.
  destruct (Z.gtb_spec (now - User.lastSeen u) 30000); [lia | reflexivity].
Qed.

Lemma getOnlineUsers_well_formed now s :
  well_formed s -> well_formed (fst (getOnlineUsers now s)).
Proof. exact (exec_well_formed (CallGetOnlineUsers now) s). Qed.

Lemma updateUserSeen_well_formed now userId s :
  well_formed s -> well_formed (updateUserSeen now userId s).
Proof. exact (exec_well_formed (CallUpdateUserSeen now userId) s). Qed.

Lemma getUser_values userId u s :
  getUser userId s = Some u -> In u (values (users s)).
Proof. intros H. apply In_values. exists userId. apply get_In, H. Qed.

(** A user seen at [t1] is online at [t2] when [t2 - t1 <= 30000], and is
    then still in the map. *)
Lemma seen_then_online t1 t2 userId u s :
  well_formed s -> getUser userId s = Some u -> t2 - t1 <= 30000 ->
  let s1 := updateUserSeen t1 userId s in
  In (User.setLastSeen t1 u) (snd (getOnlineUsers t2 s1))
  /\ getUser userId (fst (getOnlineUsers t2 s1)) = Some (User.setLastSeen t1 u).
Proof.
  intros Hwf Hget Hwin s1.
  assert (Hwf1 : well_formed s1) by apply updateUserSeen_well_formed, Hwf.
  assert (Hget1 : getUser userId s1 = Some (User.setLastSeen t1 u)).
  { subst s1. unfold updateUserSeen, getUser in *. rewrite Hget. cbn [users].
    now rewrite get_modify, String.eqb_refl, Hget. }
  assert (Hin : In (User.setLastSeen t1 u) (snd (getOnlineUsers t2 s1))).
  { rewrite getOnlineUsers_list by exact Hwf1. apply filter_In.
    split; [eapply getUser_values, Hget1 |].
    rewrite not_expired; [reflexivity | exact Hwin]. }
  split; [exact Hin |].
  assert (Hkey : userId = User.id (User.setLastSeen t1 u)).
  { eapply well_formed_key; [exact Hwf1 | apply get_In, Hget1]. }
  rewrite Hkey. apply well_formed_getUser; [| exact Hin].
  apply getOnlineUsers_well_formed, Hwf1.
Qed.

End Online.

(** X5. A poll keeps its user online.  On a store whose map holds every
    user under its id, a poll at [t1] whose body names a user of the map, by
    a non-empty [userId] or, with no [userId], by a non-empty [username],
    sets the [lastSeen] of the user to [t1]; when the sweep of the poll runs
    at most 30000 ms later the user is in the list of users of the answer,
    and when the sweep of its statistics does too, the user is still in the
    map after the poll. *)
Theorem poll_keeps_online (t1 t2 t3 : Z) (body : PollBody) (s : ChatStore)
    (u : User.t) :
  well_formed s ->
  (exists userId, body_userId body = JsString userId /\ userId <> ""
                  /\ getUser userId s = Some u)
  \/ (truthy (body_userId body) = false
      /\ exists name, body_username body = JsString name /\ name <> ""
                      /\ findByUsername name s = Some u) ->
  t2 - t1 <= 30000 ->
  In (User.setLastSeen t1 u) (data_users (snd (poll t1 t2 t3 body s)))
  /\ (t3 - t1 <= 30000 ->
      getUser (User.id u) (fst (poll t1 t2 t3 body s))
      = Some (User.setLastSeen t1 u)).
Proof.
  intros Hwf Hnamed Hwin.
  assert (Hstep : exists userId,
             getUser userId s = Some u /\ userId = User.id u
             /\ (if truthy (body_userId body)
                 then updateUserSeenValue t1 (body_userId body) s
                 else if truthy (body_username body)
                      then match find (fun u => strict_eq_string
                                                  (User.username u)
                                                  (body_username body))
                                      (JsMap.values (users s)) with
                           | Some user => updateUserSeen t1 (User.id user) s
                           | None => s
                           end
                      else s)
                = updateUserSeen t1 userId s).
  { destruct Hnamed as [(userId & Huid & Hne & Hget)
                       | (Hfalsy & name & Hname & Hne & Hfind)].
    - exists userId. split; [exact Hget |]. split.
      + eapply well_formed_key; [exact Hwf | apply JsMapFacts.get_In, Hget].
      + rewrite Huid. cbn [truthy updateUserSeenValue].
        apply String.eqb_neq in Hne. now rewrite Hne.
    - exists (User.id u).
      assert (Hin : In u (JsMap.values (users s)))
        by (unfold findByUsername in Hfind; apply find_some in Hfind; tauto).
      split; [apply well_formed_getUser; assumption |]. split; [reflexivity |].
      rewrite Hfalsy, Hname. cbn [truthy strict_eq_string].
      apply String.eqb_neq in Hne. rewrite Hne. cbn [negb].
      unfold findByUsername, has_username in Hfind. now rewrite Hfind. }
  destruct Hstep as (userId & Hget & Hid & Hs1).
  unfold poll. rewrite Hs1. cbn [getOnlineUsers getStats fst snd data_users].
  destruct (seen_then_online t1 t2 userId u s Hwf Hget Hwin) as [Hin Hget2].
  split; [exact Hin |].
  intros Hwin3.
  set (s2 := fst (getOnlineUsers t2 (updateUserSeen t1 userId s))) in *.
  assert (Hwf2 : well_formed s2).
  { apply getOnlineUsers_well_formed, updateUserSeen_well_formed, Hwf. }
  assert (Hin3 : In (User.setLastSeen t1 u) (snd (getOnlineUsers t3 s2))).
  { rewrite getOnlineUsers_list by exact Hwf2. apply filter_In.
    split; [eapply getUser_values, Hget2 |].
    rewrite not_expired; [reflexivity | exact Hwin3]. }
  exact (well_formed_getUser (fst (getOnlineUsers t3 s2))
           (User.setLastSeen t1 u)
           (getOnlineUsers_well_formed t3 s2 Hwf2) Hin3).
Qed.

(** Alice joined at 0 and polls at 29000: she is online at 50000. *)
Lemma poll_keeps_online_witness :
  let s := fst (addUser 0 "0.4fzyo82mvyr" (1 # 2) "Alice" emptyStore) in
  let body := mkPollBody (JsString "4fzyo82mv") (JsString "Alice") (JsString "") in
  well_formed s
  /\ 50000 - 29000 <= 30000
  /\ In (User.mk "4fzyo82mv" "Alice" "#f39c12" 29000)
        (data_users (snd (poll 29000 50000 50001 body s))).
Proof.
  intros s body.
  assert (Hwf : well_formed s) by (apply well_formedb_sound; reflexivity).
  assert (Hwin : 50000 - 29000 <= 30000) by lia.
  split; [exact Hwf |]. split; [exact Hwin |].
  refine (proj1 (poll_keeps_online 29000 50000 50001 body s
                   (User.mk "4fzyo82mv" "Alice" "#f39c12" 0) Hwf _ Hwin)).
  left. exists "4fzyo82mv". repeat split. discriminate.
Defined.

Lemma expired_later now now' u :
  now <= now' -> expired now u = true -> expired now' u = true.
Proof.
  unfold expired, timeout. intros Hle H.
  apply Z.gtb_lt in H. apply Z.gtb_lt. lia.
Qed.

(** X6. Sweeps compose.  On a store whose map holds every user under its
    id, a sweep at [now] followed by a sweep at a later time [now'] leaves
    the store and returns the list that the sweep at [now'] alone does; the
    users online at the later time were online at the earlier one; and a
    second sweep at the same time changes nothing. *)
Theorem getOnlineUsers_later (now now' : Z) (s : ChatStore) :
  well_formed s -> now <= now' ->
  let r := getOnlineUsers now s in
  getOnlineUsers now' (fst r) = getOnlineUsers now' s
  /\ (forall u, In u (snd (getOnlineUsers now' s)) -> In u (snd r))
  /\ getOnlineUsers now (fst r) = r.
Proof.
  intros Hwf Hle r.
  assert (Hwf1 : well_formed (fst r)) by apply getOnlineUsers_well_formed, Hwf.
  assert (Hcomp : forall t, now <= t ->
            users (fst (getOnlineUsers t (fst r)))
            = users (fst (getOnlineUsers t s))).
  { intros t Ht. rewrite !getOnlineUsers_users by assumption.
    subst r. rewrite getOnlineUsers_users by assumption.
    rewrite filter_filter_andb. apply filter_ext. intros [k u]. cbn [snd].
    destruct (expired now u) eqn:E; cbn [negb andb]; [| reflexivity].
    now rewrite (expired_later now t u Ht E). }
  assert (Heq : forall t, now <= t ->
            getOnlineUsers t (fst r) = getOnlineUsers t s).
  { intros t Ht. specialize (Hcomp t Ht).
    unfold getOnlineUsers in *. cbn [fst users messages] in *.
    now rewrite Hcomp. }
  split; [apply Heq, Hle |]. split.
  - intros u Hin. rewrite getOnlineUsers_list in Hin by exact Hwf.
    subst r. rewrite getOnlineUsers_list by exact Hwf.
    apply filter_In in Hin as [Hin Hexp]. apply filter_In. split; [exact Hin |].
    destruct (expired now u) eqn:E; [| reflexivity].
    now rewrite (expired_later now now' u Hle E) in Hexp.
  - rewrite Heq by lia. reflexivity.
Qed.

Lemma getOnlineUsers_later_witness :
  let s := run [CallAddUser 0 "0.4fzyo82mvyr" (1 # 2) "Alice";
                CallAddUser 20000 "0.k9x2m4q7w1e" (1 # 4) "Bob"] emptyStore in
  well_formed s /\ 30001 <= 60000
  /\ getOnlineUsers 60000 (fst (getOnlineUsers 30001 s)) = getOnlineUsers 60000 s.
Proof.
  intros s.
  assert (Hwf : well_formed s) by (apply well_formedb_sound; reflexivity).
  assert (Hle : 30001 <= 60000) by lia.
  split; [exact Hwf |]. split; [exact Hle |].
  exact (proj1 (getOnlineUsers_later 30001 60000 s Hwf Hle)).
Defined.

Lemma sweep_length now (m : JsMap.t User.t) :
  (List.length (sweep now m) <= List.length m)%nat.
Proof.
  apply (sweep_ind (fun m' => (List.length m' <= List.length m)%nat)); [| lia].
  intros k m' H. unfold JsMap.delete.
  pose proof (filter_length_le (fun e => negb (String.eqb (fst e) k)) m'). lia.
Qed.

(** X7. The statistics of a running store are bounded: there are at most
    100 messages, the user messages are among them, and the users online
    are among the users that the map held. *)
Theorem getStats_bounds (now : Z) (s : ChatStore) :
  reachable s ->
  let st := snd (getStats now s) in
  (userMessages st <= totalMessages st)%nat
  /\ (totalMessages st <= 100)%nat
  /\ (onlineUsers st <= List.length (users s))%nat.
Proof.
  intros Hr st. subst st. unfold getStats.
  cbn [getOnlineUsers fst snd messages userMessages totalMessages onlineUsers].
  split; [apply filter_length_le |].
  split; [apply reachable_messages_bound, Hr |].
  unfold JsMap.values. rewrite length_map. apply sweep_length.
Qed.

Lemma getStats_bounds_witness :
  let s := run [CallAddUser 0 "0.4fzyo82mvyr" (1 # 2) "Alice";
                CallAddMessage 2 "0.b7d1s6u4p2z" "Alice" "hi" "#f39c12" None]
               emptyStore in
  reachable s /\ (totalMessages (snd (getStats 5 s)) <= 100)%nat.
Proof.
  intros s.
  assert (Hr : reachable s).
  { apply reachable_run; [| constructor]. valid_calls. }
  split; [exact Hr |].
  destruct (getStats_bounds 5 s Hr) as (_ & H & _). exact H.
Defined.

(** * The routes *)

Lemma service_addMessage_newest (m : Message.t) (l : list Message.t) :
  exists older, ChatService.addMessage m l = older ++ [m]
                /\ (older = l \/ older = tl l).
Proof.
  unfold ChatService.addMessage, push, shift. destruct l as [| x l].
  - exists []. cbn. auto.
  - destruct (_ >? _); [exists l | exists (x :: l)]; cbn; auto.
Qed.

(** The message that [addMessage] returns is the newest entry of the log. *)
Lemma addMessage_newest now r36 username content color type s :
  exists older,
    messages (fst (addMessage now r36 username content color type s))
    = older ++ [snd (addMessage now r36 username content color type s)]
    /\ (older = messages s \/ older = tl (messages s)).
Proof. rewrite addMessage_messages. apply service_addMessage_newest. Qed.

Lemma online_kept now k u s :
  well_formed s -> getUser k s = Some u -> now - User.lastSeen u <= 30000 ->
  In u (snd (getOnlineUsers now s))
  /\ getUser k (fst (getOnlineUsers now s)) = Some u.
Proof.
  intros Hwf Hget Hwin.
  assert (Hin : In u (snd (getOnlineUsers now s))).
  { rewrite getOnlineUsers_list by exact Hwf. apply filter_In.
    split; [eapply getUser_values, Hget |].
    rewrite not_expired; [reflexivity | exact Hwin]. }
  split; [exact Hin |].
  rewrite (well_formed_key s k u Hwf (JsMapFacts.get_In _ _ _ Hget)).
  apply well_formed_getUser; [apply getOnlineUsers_well_formed, Hwf | exact Hin].
Qed.

Lemma truthy_string (c : string) : c <> "" -> truthy (JsString c) = true.
Proof. intros H. cbn. apply String.eqb_neq in H. now rewrite H. Qed.

(** X8. A request whose body cannot be read, or lacks what the route
    requires (a truthy [username] for a join, a truthy [username] and a
    truthy [content] for a message), is answered with status 400 and leaves
    the store as it is. *)
Theorem routes_reject_invalid (t1 : Z) (r1 : string) (rnd : Q) (t2 : Z)
    (r2 : string) (t3 : Z) (s : ChatStore) :
  joinRoute t1 r1 rnd t2 r2 t3 None s = handled s (Failure 400 "Invalid JSON")
  /\ (forall username, truthy username = false ->
        joinRoute t1 r1 rnd t2 r2 t3 (Some username) s
        = handled s (Failure 400 "username required"))
  /\ sendRoute t1 r1 rnd t2 r2 None s = handled s (Failure 400 "Invalid JSON")
  /\ (forall b, truthy (send_username b) = false
                \/ truthy (send_content b) = false ->
        sendRoute t1 r1 rnd t2 r2 (Some b) s
        = handled s (Failure 400 "username and content required"))
  /\ leaveRoute t2 r2 None s = (s, Failure 400 "Invalid JSON").
Proof.
  split; [reflexivity |]. split.
  { intros username H. unfold joinRoute. now rewrite H. }
  split; [reflexivity |]. split; [| reflexivity].
  intros b [H | H]; unfold sendRoute; rewrite H; cbn [negb orb];
    [| rewrite orb_true_r]; reflexivity.
Qed.

(** X9. A join under a non-empty name answers with the record of
    [addUser], the log and the users online.  The newest entry of the log is
    the system message "<name> joined the chat"; and on a store whose map
    holds every user under its id, when the sweep of the route runs at most
    30000 ms after its [addUser], the user that has joined is in the list of
    the answer and in the map. *)
Theorem joinRoute_announces (t1 : Z) (r1 : string) (rnd : Q) (t2 : Z)
    (r2 : string) (t3 : Z) (name : string) (s : ChatStore) :
  name <> "" ->
  exists s' d,
    joinRoute t1 r1 rnd t2 r2 t3 (Some (JsString name)) s
    = handled s' (Success d)
    /\ join_user d = snd (addUser t1 r1 rnd name s)
    /\ join_messages d = getMessages s'
    /\ join_users d = JsMap.values (users s')
    /\ (exists older,
          getMessages s'
          = older ++ [Message.mk (generateId r2) "System"
                                 (name ++ " joined the chat")%string t2
                                 type_system "#666666"])
    /\ (well_formed s -> t3 - t1 <= 30000 ->
        In (join_user d) (join_users d)
        /\ getUser (User.id (join_user d)) s' = Some (join_user d)).
Proof.
  intros Hname. unfold joinRoute. rewrite (truthy_string name Hname).
  cbn [negb]. destruct (addUser t1 r1 rnd name s) as [s1 user] eqn:Hadd.
  cbn [addSystemMessage addMessage getOnlineUsers].
  eexists. eexists. split; [reflexivity |].
  cbn [join_user join_users join_messages getMessages users messages snd].
  split; [reflexivity |]. split; [reflexivity |]. split; [reflexivity |].
  split.
  - destruct (addMessage_newest t2 r2 "System"
                (name ++ " joined the chat")%string "#666666"
                (Some type_system) s1) as (older & Hlog & _).
    exists older. exact Hlog.
  - intros Hwf Hwin.
    assert (Hwf1 : well_formed s1).
    { replace s1 with (fst (addUser t1 r1 rnd name s)) by now rewrite Hadd.
      exact (exec_well_formed (CallAddUser t1 r1 rnd name) s Hwf). }
    assert (Hget : getUser (User.id user) s1 = Some user).
    { pose proof (addUser_getUser t1 r1 rnd name s Hwf) as H.
      now rewrite Hadd in H. }
    assert (Hseen : User.lastSeen user = t1).
    { pose proof (addUser_then_find t1 r1 rnd name s) as (_ & _ & H).
      now rewrite Hadd in H. }
    assert (Hwin' : t3 - User.lastSeen user <= 30000) by (rewrite Hseen; exact Hwin).
    exact (online_kept t3 (User.id user) user s1 Hwf1 Hget Hwin').
Qed.

Lemma joinRoute_announces_witness :
  "Alice" <> ""
  /\ exists s' d,
       joinRoute 0 "0.4fzyo82mvyr" (1 # 2) 1 "0.h5tq0c3n8ab" 2
                 (Some (JsString "Alice")) emptyStore
       = handled s' (Success d)
       /\ join_user d = snd (addUser 0 "0.4fzyo82mvyr" (1 # 2) "Alice" emptyStore).
Proof.
  assert (Hname : "Alice" <> "") by discriminate.
  split; [exact Hname |].
  destruct (joinRoute_announces 0 "0.4fzyo82mvyr" (1 # 2) 1 "0.h5tq0c3n8ab" 2
              "Alice" emptyStore Hname) as (s' & d & Hroute & Huser & _).
  exists s', d. split; assumption.
Defined.

(** X10. A message sent with a colour, or with none under the name of a
    user of the map who has a colour, is appended as the newest entry of
    the log, of type [user], with the colour given or else the colour of
    the user; the map of users is left as it is: the route creates no user
    and does not refresh the [lastSeen] of the sender. *)
Theorem sendRoute_keeps_users (t1 : Z) (r1 : string) (rnd : Q) (t2 : Z)
    (r2 : string) (name content c : string) (color : JsValue)
    (s : ChatStore) :
  name <> "" -> content <> "" -> c <> "" ->
  color = JsString c
  \/ (truthy color = false
      /\ exists u, findByUsername name s = Some u /\ User.color u = c) ->
  exists s',
    sendRoute t1 r1 rnd t2 r2
      (Some (mkSendBody (JsString name) (JsString content) color)) s
    = handled s' (Success (Message.mk (generateId r2) name content t2
                                      type_user c))
    /\ users s' = users s
    /\ exists older,
         getMessages s'
         = older ++ [Message.mk (generateId r2) name content t2 type_user c].
Proof.
  intros Hname Hcontent Hc Hcolor. unfold sendRoute.
  cbn [send_username send_content send_color].
  rewrite (truthy_string name Hname), (truthy_string content Hcontent).
  cbn [negb orb].
  assert (Hmc : messageColor t1 r1 rnd color name s = Some (s, c)).
  { unfold messageColor. destruct Hcolor as [-> | (Hfalsy & u & Hfind & Hu)].
    - now rewrite (truthy_string c Hc).
    - rewrite Hfalsy, Hfind, Hu. apply String.eqb_neq in Hc. now rewrite Hc. }
  rewrite Hmc.
  destruct (addMessage_newest t2 r2 name content c None s) as (older & Hlog & _).
  eexists. split; [reflexivity |]. split; [reflexivity |].
  exists older. exact Hlog.
Qed.

(** Alice is in the map, seen at 0; she sends "hi" at 20000 with no
    colour. *)
Lemma sendRoute_keeps_users_witness :
  let s := fst (addUser 0 "0.4fzyo82mvyr" (1 # 2) "Alice" emptyStore) in
  ("Alice" <> "" /\ "hi" <> "" /\ "#f39c12" <> "")
  /\ exists s',
       sendRoute 20000 "0.zzz" (1 # 4) 20000 "0.b7d1s6u4p2z"
         (Some (mkSendBody (JsString "Alice") (JsString "hi") JsUndefined)) s
       = handled s' (Success (Message.mk "b7d1s6u4p" "Alice" "hi" 20000
                                         type_user "#f39c12"))
       /\ users s' = users s.
Proof.
  intros s.
  assert (H1 : "Alice" <> "") by discriminate.
  assert (H2 : "hi" <> "") by discriminate.
  assert (H3 : "#f39c12" <> "") by discriminate.
  split; [auto |].
  destruct (sendRoute_keeps_users 20000 "0.zzz" (1 # 4) 20000 "0.b7d1s6u4p2z"
              "Alice" "hi" "#f39c12" JsUndefined s H1 H2 H3) as (s' & Hr & Hu & _).
  { right. split; [reflexivity |]. eexists. split; reflexivity. }
  exists s'. split; assumption.
Defined.

(** X11. A message sent with no colour under a name that no user of the
    map has joins the sender: the route calls [addUser], and the message,
    the newest entry of the log, has the colour of the new user, which is a
    colour of the palette; the new user is then found under the name, last
    seen at the time of the call. *)
Theorem sendRoute_implicit_join (t1 : Z) (r1 : string) (rnd : Q) (t2 : Z)
    (r2 : string) (name content : string) (color : JsValue) (s : ChatStore) :
  name <> "" -> content <> "" -> truthy color = false ->
  findByUsername name s = None -> unit_draw rnd ->
  exists s',
    sendRoute t1 r1 rnd t2 r2
      (Some (mkSendBody (JsString name) (JsString content) color)) s
    = handled s' (Success (Message.mk (generateId r2) name content t2
                                      type_user (getRandomColor rnd)))
    /\ In (getRandomColor rnd) colors
    /\ users s' = JsMap.set (generateId r1)
                    (User.mk (generateId r1) name (getRandomColor rnd) t1)
                    (users s)
    /\ findByUsername name s'
       = Some (User.mk (generateId r1) name (getRandomColor rnd) t1)
    /\ exists older,
         getMessages s'
         = older ++ [Message.mk (generateId r2) name content t2 type_user
                                (getRandomColor rnd)].
Proof.
  intros Hname Hcontent Hfalsy Hnew Hrnd. unfold sendRoute.
  cbn [send_username send_content send_color].
  rewrite (truthy_string name Hname), (truthy_string content Hcontent).
  cbn [negb orb]. unfold messageColor. rewrite Hfalsy, Hnew.
  pose proof (addUser_then_find t1 r1 rnd name s) as (Hfound & _).
  unfold addUser in *. rewrite Hnew in *. cbn [fst snd User.color User.id] in *.
  set (s1 := {| users := _; messages := messages s |}) in *.
  destruct (addMessage_newest t2 r2 name content (getRandomColor rnd) None s1)
    as (older & Hlog & _).
  eexists. split; [reflexivity |].
  split; [apply getRandomColor_in_palette, Hrnd |].
  split; [reflexivity |]. split; [exact Hfound |].
  exists older. exact Hlog.
Qed.

Lemma sendRoute_implicit_join_witness :
  ("Bob" <> "" /\ "ho" <> "" /\ truthy JsNull = false
   /\ findByUsername "Bob" emptyStore = None /\ unit_draw (1 # 4))
  /\ exists s',
       sendRoute 7 "0.k9x2m4q7w1e" (1 # 4) 8 "0.b7d1s6u4p2z"
         (Some (mkSendBody (JsString "Bob") (JsString "ho") JsNull)) emptyStore
       = handled s' (Success (Message.mk "b7d1s6u4p" "Bob" "ho" 8 type_user
                                         "#2ecc71")).
Proof.
  assert (H1 : "Bob" <> "") by discriminate.
  assert (H2 : "ho" <> "") by discriminate.
  split; [repeat split; (discriminate || reflexivity) |].
  destruct (sendRoute_implicit_join 7 "0.k9x2m4q7w1e" (1 # 4) 8 "0.b7d1s6u4p2z"
              "Bob" "ho" JsNull emptyStore H1 H2 eq_refl eq_refl
              quarter_is_unit_draw) as (s' & Hr & _).
  exists s'. exact Hr.
Defined.

Lemma strict_eq_string_has_username name u :
  strict_eq_string (User.username u) (JsString name) = has_username name u.
Proof. reflexivity. Qed.

(** The route on a body that can be read, in terms of the user it names. *)
Lemma leaveRoute_leaving (t : Z) (r36 : string) (b : LeaveBody) (s : ChatStore) :
  well_formed s ->
  leaveRoute t r36 (Some b) s
  = match leaving b s with
    | Some user =>
        (fst (addSystemMessage t r36
                (User.username user ++ " left the chat")%string
                (removeUser (User.id user) s)),
         Success tt)
    | None => (s, Success tt)
    end.
Proof.
  intros Hwf. unfold leaveRoute, leaving.
  destruct (truthy (leave_userId b)).
  - destruct (leave_userId b) as [| | | | userId |]; try reflexivity.
    destruct (getUser userId s) as [user |] eqn:Hget; [| reflexivity].
    rewrite (well_formed_key s userId user Hwf (JsMapFacts.get_In _ _ _ Hget)).
    reflexivity.
  - destruct (truthy (leave_username b)); [| reflexivity].
    destruct (find _ _); reflexivity.
Qed.

(** X12. A leave that names no user of the map changes nothing and
    succeeds: no user is removed and no notice is written.  A truthy
    [userId] alone decides: when no user stands under it, the [username] of
    the body is not looked at. *)
Theorem leaveRoute_unknown (t : Z) (r36 : string) (b : LeaveBody)
    (s : ChatStore) :
  (leaving b s = None -> leaveRoute t r36 (Some b) s = (s, Success tt))
  /\ (truthy (leave_userId b) = true ->
      (forall userId, leave_userId b = JsString userId ->
                      getUser userId s = None) ->
      leaveRoute t r36 (Some b) s = (s, Success tt)).
Proof.
  assert (H1 : leaving b s = None -> leaveRoute t r36 (Some b) s = (s, Success tt)).
  { unfold leaveRoute, leaving.
    destruct (truthy (leave_userId b)).
    - destruct (leave_userId b) as [| | | | userId |]; try reflexivity.
      now intros ->.
    - destruct (truthy (leave_username b)); [| reflexivity].
      now intros ->. }
  split; [exact H1 |].
  intros Htruthy Hnone. apply H1. unfold leaving. rewrite Htruthy.
  destruct (leave_userId b); try reflexivity. now apply Hnone.
Qed.

(** X13. On a store whose map holds every user under its id, a leave that
    names a user of the map removes this user and no other, and writes the
    system message "<username> left the chat" as the newest entry of the
    log. *)
Theorem leaveRoute_known (t : Z) (r36 : string) (b : LeaveBody)
    (s : ChatStore) (user : User.t) :
  well_formed s -> leaving b s = Some user ->
  let s' := fst (leaveRoute t r36 (Some b) s) in
  snd (leaveRoute t r36 (Some b) s) = Success tt
  /\ In user (JsMap.values (users s))
  /\ users s' = JsMap.delete (User.id user) (users s)
  /\ getUser (User.id user) s' = None
  /\ (forall k, k <> User.id user -> getUser k s' = getUser k s)
  /\ exists older,
       getMessages s'
       = older ++ [Message.mk (generateId r36) "System"
                              (User.username user ++ " left the chat")%string
                              t type_system "#666666"].
Proof.
  intros Hwf Hleaving s'. subst s'.
  rewrite leaveRoute_leaving by exact Hwf. rewrite Hleaving. cbn [fst snd].
  split; [reflexivity |].
  split.
  { unfold leaving in Hleaving. destruct (truthy (leave_userId b)).
    - destruct (leave_userId b); try discriminate.
      eapply getUser_values, Hleaving.
    - destruct (truthy (leave_username b)); [| discriminate].
      apply find_some in Hleaving. tauto. }
  unfold addSystemMessage. rewrite addMessage_users.
  unfold getUser. cbn [removeUser users].
  split; [reflexivity |].
  split; [apply JsMapFacts.get_delete_eq |].
  split; [intros k Hk; apply JsMapFacts.get_delete_ne, Hk |].
  destruct (addMessage_newest t r36 "System"
              (User.username user ++ " left the chat")%string "#666666"
              (Some type_system) (removeUser (User.id user) s))
    as (older & Hlog & _).
  exists older. exact Hlog.
Qed.

Lemma leaveRoute_known_witness :
  let s := run [CallAddUser 0 "0.4fzyo82mvyr" (1 # 2) "Alice";
                CallAddUser 3 "0.k9x2m4q7w1e" (1 # 4) "Bob"] emptyStore in
  let b := mkLeaveBody JsUndefined (JsString "Alice") in
  well_formed s
  /\ leaving b s = Some (User.mk "4fzyo82mv" "Alice" "#f39c12" 0)
  /\ getUser "4fzyo82mv" (fst (leaveRoute 9 "0.m2c8v5x1r9k" (Some b) s)) = None.
Proof.
  intros s b.
  assert (Hwf : well_formed s) by (apply well_formedb_sound; reflexivity).
  assert (Hl : leaving b s = Some (User.mk "4fzyo82mv" "Alice" "#f39c12" 0))
    by reflexivity.
  split; [exact Hwf |]. split; [exact Hl |].
  destruct (leaveRoute_known 9 "0.m2c8v5x1r9k" b s _ Hwf Hl)
    as (_ & _ & _ & Hgone & _).
  exact Hgone.
Defined.

Lemma same_name_same_entry (s : ChatStore) k u k' u' :
  reachable s ->
  In (k, u) (users s) -> In (k', u') (users s) ->
  User.username u = User.username u' -> k = k' /\ u = u'.
Proof.
  intros Hr Hin Hin' Hname.
  pose proof (reachable_unique_usernames s Hr) as Hnd.
  pose proof (reachable_well_formed s Hr) as Hwf.
  unfold unique_usernames, names_of in Hnd.
  pose proof (find_unique (fun e => User.username (snd e)) (users s) (k, u)
                Hnd Hin) as H1.
  pose proof (find_unique (fun e => User.username (snd e)) (users s) (k', u')
                Hnd Hin') as H2.
  cbn [snd] in H1, H2. rewrite Hname in H1. rewrite H1 in H2.
  now injection H2.
Qed.

(** X14. Leaving twice is leaving once: in a running store, after a leave,
    the same leave names no user any more, so that it changes nothing and
    writes no second notice. *)
Theorem leaveRoute_twice (t t' : Z) (r36 r36' : string) (b : LeaveBody)
    (s : ChatStore) :
  reachable s ->
  let s' := fst (leaveRoute t r36 (Some b) s) in
  leaving b s' = None
  /\ leaveRoute t' r36' (Some b) s' = (s', Success tt).
Proof.
  intros Hr s'.
  pose proof (reachable_well_formed s Hr) as Hwf.
  assert (Hnone : leaving b s' = None).
  { subst s'. rewrite leaveRoute_leaving by exact Hwf.
    destruct (leaving b s) as [user |] eqn:Hl; cbn [fst]; [| exact Hl].
    unfold leaving in *. unfold getUser in *.
    unfold addSystemMessage. rewrite addMessage_users. cbn [removeUser users].
    destruct (truthy (leave_userId b)).
    - destruct (leave_userId b) as [| | | | userId |]; try reflexivity.
      rewrite (well_formed_key s userId user Hwf (JsMapFacts.get_In _ _ _ Hl)).
      apply JsMapFacts.get_delete_eq.
    - destruct (truthy (leave_username b)); [| reflexivity].
      destruct (find _ (JsMap.values (JsMap.delete _ _))) as [u' |] eqn:Hfind';
        [| reflexivity].
      exfalso. apply find_some in Hl as [Hin Hp].
      apply find_some in Hfind' as [Hin' Hp'].
      apply In_values in Hin as (k & Hin). apply In_values in Hin' as (k' & Hin').
      apply JsMapFacts.In_delete in Hin' as [Hin' Hne]. cbn [fst] in Hne.
      apply strict_eq_string_true in Hp, Hp'.
      destruct (same_name_same_entry s k user k' u' Hr Hin Hin') as [Hk _].
      + congruence.
      + apply Hne. rewrite <- Hk.
        eapply well_formed_key; eassumption. }
  split; [exact Hnone |].
  unfold leaveRoute, leaving in *.
  destruct (truthy (leave_userId b)).
  - destruct (leave_userId b); try reflexivity. now rewrite Hnone.
  - destruct (truthy (leave_username b)); [| reflexivity]. now rewrite Hnone.
Qed.

Lemma leaveRoute_twice_witness :
  let s := run [CallAddUser 0 "0.4fzyo82mvyr" (1 # 2) "Alice";
                CallAddUser 3 "0.k9x2m4q7w1e" (1 # 4) "Bob"] emptyStore in
  let b := mkLeaveBody (JsString "k9x2m4q7w") JsUndefined in
  reachable s
  /\ map User.username
         (JsMap.values (users (fst (leaveRoute 9 "0.m2c8v5x1r9k" (Some b) s))))
     = ["Alice"]
  /\ leaveRoute 10 "0.h5tq0c3n8ab" (Some b)
       (fst (leaveRoute 9 "0.m2c8v5x1r9k" (Some b) s))
     = (fst (leaveRoute 9 "0.m2c8v5x1r9k" (Some b) s), Success tt).
Proof.
  intros s b.
  assert (Hr : reachable s).
  { apply reachable_run; [| constructor]. valid_calls. }
  split; [exact Hr |]. split; [reflexivity |].
  exact (proj2 (leaveRoute_twice 9 10 "0.m2c8v5x1r9k" "0.h5tq0c3n8ab" b s Hr)).
Defined.

(** * The event-channel service *)

Section ServiceFacts.
Variable trim : string -> string.

Lemma service_Forall_delete (P : string * Service.User -> Prop) k m :
  Forall P m -> Forall P (JsMap.delete k m).
Proof.
  rewrite !Forall_forall. intros H e He.
  apply JsMapFacts.In_delete in He. apply H. tauto.
Qed.

Lemma handle_well_formed (e : Service.Event) (st : Service.State) :
  service_well_formed st -> service_well_formed (fst (Service.handle trim e st)).
Proof.
  intros (Hlen & Hnd & Hids). destruct e; cbn [Service.handle].
  - repeat split; assumption.
  - cbn [Service.onJoin fst Service.users Service.messages].
    split; [apply service_addMessage_length, Hlen |].
    split; [apply JsMapFacts.NoDup_set, Hnd |].
    apply Forall_forall. intros x Hx.
    apply JsMapFacts.In_set in Hx as [-> | Hx]; [reflexivity |].
    rewrite Forall_forall in Hids. auto.
  - unfold Service.onMessage.
    destruct (JsMap.get socket (Service.users st)); [| repeat split; assumption].
    destruct content; [| repeat split; assumption].
    destruct (negb _); [| repeat split; assumption].
    cbn [fst Service.users Service.messages].
    split; [apply service_addMessage_length, Hlen | split; assumption].
  - unfold Service.onTyping.
    destruct (JsMap.get socket (Service.users st)); repeat split; assumption.
  - unfold Service.onDisconnect.
    destruct (JsMap.get socket (Service.users st)); [| repeat split; assumption].
    cbn [fst Service.users Service.messages].
    split; [apply service_addMessage_length, Hlen |].
    split; [apply JsMapFacts.NoDup_delete, Hnd |].
    apply service_Forall_delete, Hids.
Qed.

Lemma httpPostMessage_well_formed rnd r36 now body st st' out r :
  service_well_formed st ->
  Service.httpPostMessage rnd r36 now body st = Some (st', out, r) ->
  service_well_formed st'.
Proof.
  intros (Hlen & Hnd & Hids). unfold Service.httpPostMessage.
  destruct body as [b |]; [| now intros [= <- _ _]].
  destruct (_ || _); [now intros [= <- _ _] |].
  destruct (send_username b); try discriminate.
  destruct (send_content b); try discriminate.
  destruct (if truthy (send_color b) then _ else _); [| discriminate].
  intros [= <- _ _]. cbn [Service.users Service.messages].
  split; [apply service_addMessage_length, Hlen | split; assumption].
Qed.

End ServiceFacts.

(** X15. In every state of a running service the log holds at most 100
    messages, and the map of users holds no socket twice and every user
    under the id of its socket. *)
Theorem service_invariants (trim : string -> string) (st : Service.State) :
  Service.reachable trim st ->
  (List.length (Service.messages st) <= 100)%nat
  /\ NoDup (JsMap.keys (Service.users st))
  /\ (forall k u, In (k, u) (Service.users st) -> Service.id u = k)
  /\ (forall k u, JsMap.get k (Service.users st) = Some u -> Service.id u = k).
Proof.
  intros Hr.
  assert (Hwf : service_well_formed st).
  { induction Hr as [| e st Hr IH | rnd r36 now body st st' out r Hr IH Hpost].
    - repeat split; [cbn; lia | constructor | constructor].
    - apply handle_well_formed, IH.
    - eapply httpPostMessage_well_formed; eassumption. }
  destruct Hwf as (Hlen & Hnd & Hids). rewrite Forall_forall in Hids.
  split; [exact Hlen |]. split; [exact Hnd |].
  split; [intros k u Hin; exact (Hids _ Hin) |].
  intros k u Hget. exact (Hids _ (JsMapFacts.get_In _ _ _ Hget)).
Qed.

Lemma service_invariants_witness :
  let st := fst (Service.handle (fun x => x)
                   (Service.Join "sock1" (1 # 2) "0.h5tq0c3n8ab" 1 "Alice")
                   Service.init) in
  Service.reachable (fun x => x) st
  /\ (List.length (Service.messages st) <= 100)%nat.
Proof.
  intros st.
  assert (Hr : Service.reachable (fun x => x) st)
    by (apply Service.reachable_event, Service.reachable_init).
  split; [exact Hr |].
  exact (proj1 (service_invariants (fun x => x) st Hr)).
Defined.

Lemma handle_messages (trim : string -> string) (e : Service.Event)
    (st : Service.State) :
  Service.messages (fst (Service.handle trim e st))
  = fold_left (fun l m => ChatService.addMessage m l)
      (Service.broadcast (snd (Service.handle trim e st)))
      (Service.messages st).
Proof.
  destruct e; cbn [Service.handle]; try reflexivity.
  - unfold Service.onMessage.
    destruct (JsMap.get socket (Service.users st)); [| reflexivity].
    destruct content; [| reflexivity].
    destruct (negb _); reflexivity.
  - unfold Service.onTyping.
    destruct (JsMap.get socket (Service.users st)); reflexivity.
  - unfold Service.onDisconnect.
    destruct (JsMap.get socket (Service.users st)); reflexivity.
Qed.

Lemma play_messages (trim : string -> string) (es : list Service.Event)
    (st : Service.State) :
  Service.messages (fst (Service.play trim es st))
  = fold_left (fun l m => ChatService.addMessage m l)
      (Service.broadcast (snd (Service.play trim es st)))
      (Service.messages st).
Proof.
  revert st. induction es as [| e es IH]; intros st; [reflexivity |].
  cbn [Service.play].
  pose proof (handle_messages trim e st) as He.
  destruct (Service.handle trim e st) as [st1 out1].
  pose proof (IH st1) as Hes.
  destruct (Service.play trim es st1) as [st2 out2].
  cbn [fst snd] in *. unfold Service.broadcast in *.
  rewrite flat_map_app, fold_left_app, Hes, He. reflexivity.
Qed.

(** X16. The log of the service is the end of what it has broadcast: after
    any events, on a log of at most 100 messages, the log is the last 100
    of the messages it held followed by the messages of the events
    ['user-joined'], ['message'] and ['user-left'] emitted to all sockets,
    in the order of their emission. *)
Theorem service_log_is_broadcast (trim : string -> string)
    (es : list Service.Event) (st : Service.State) :
  (List.length (Service.messages st) <= 100)%nat ->
  let r := Service.play trim es st in
  Service.messages (fst r)
  = lastn 100 (Service.messages st ++ Service.broadcast (snd r))
  /\ (List.length (Service.messages (fst r)) <= 100)%nat.
Proof.
  intros Hlen r. subst r.
  assert (H : Service.messages (fst (Service.play trim es st))
              = lastn 100 (Service.messages st
                           ++ Service.broadcast (snd (Service.play trim es st)))).
  { rewrite play_messages. apply bounded_fold, Hlen. }
  split; [exact H |]. rewrite H, lastn_length. lia.
Qed.

(** Alice joins on one socket, blank text is ignored, "hi" is sent, a
    socket that has not joined is ignored, Alice disconnects. *)
Lemma service_log_is_broadcast_witness :
  let es := [Service.Connection "sock1";
             Service.Join "sock1" (1 # 2) "0.h5tq0c3n8ab" 1 "Alice";
             Service.Msg "sock1" "0.aaaaaaaaaaa" 2 (Some "");
             Service.Msg "sock1" "0.b7d1s6u4p2z" 3 (Some "hi");
             Service.Msg "sock2" "0.ccccccccccc" 4 (Some "ho");
             Service.Typing "sock1";
             Service.Disconnect "sock1" "0.m2c8v5x1r9k" 5] in
  let r := Service.play (fun x => x) es Service.init in
  (List.length (Service.messages Service.init) <= 100)%nat
  /\ map Message.content (Service.messages (fst r))
     = ["Alice joined the chat"; "hi"; "Alice left the chat"]
  /\ Service.messages (fst r)
     = lastn 100 (Service.messages Service.init ++ Service.broadcast (snd r)).
Proof.
  intros es r.
  assert (Hlen : (List.length (Service.messages Service.init) <= 100)%nat)
    by (cbn; lia).
  split; [exact Hlen |]. split; [reflexivity |].
  exact (proj1 (service_log_is_broadcast (fun x => x) es Service.init Hlen)).
Defined.

(** X17. The disconnection of a socket that has not joined does nothing
    and emits nothing.  That of a socket that has joined removes its user
    and no other, writes the system message "<username> left the chat" as
    the newest entry of the log and emits it to all sockets with the id and
    the name of the user; a further disconnection of the socket does
    nothing. *)
Theorem onDisconnect_removes (socket r36 : string) (now : Z)
    (st : Service.State) :
  let r := Service.onDisconnect socket r36 now st in
  (JsMap.get socket (Service.users st) = None -> r = (st, []))
  /\ (forall user, JsMap.get socket (Service.users st) = Some user ->
        let notice :=
          Message.mk (generateId r36) "System"
                     (Service.username user ++ " left the chat")%string now
                     type_system "#666666" in
        Service.users (fst r) = JsMap.delete socket (Service.users st)
        /\ JsMap.get socket (Service.users (fst r)) = None
        /\ (forall k, k <> socket ->
              JsMap.get k (Service.users (fst r))
              = JsMap.get k (Service.users st))
        /\ (exists older, Service.messages (fst r) = older ++ [notice])
        /\ snd r = [(Service.ToAll,
                     Service.UserLeft socket (Service.username user) notice)])
  /\ (forall r36' now',
        Service.onDisconnect socket r36' now' (fst r) = (fst r, [])).
Proof.
  intros r. subst r. unfold Service.onDisconnect.
  destruct (JsMap.get socket (Service.users st)) as [user |] eqn:Hget.
  - split; [discriminate |]. split.
    + intros user' [= <-]. cbn [fst snd Service.users Service.messages].
      split; [reflexivity |].
      split; [apply JsMapFacts.get_delete_eq |].
      split; [intros k Hk; apply JsMapFacts.get_delete_ne, Hk |].
      split; [| reflexivity].
      destruct (service_addMessage_newest
                  (ChatService.createSystemMessage now r36
                     (Service.username user ++ " left the chat")%string)
                  (Service.messages st)) as (older & Hlog & _).
      exists older. exact Hlog.
    + intros r36' now'. cbn [fst Service.users].
      now rewrite JsMapFacts.get_delete_eq.
  - split; [reflexivity |]. split; [discriminate |].
    intros r36' now'. cbn [fst]. now rewrite Hget.
Qed.

(** X18. A ['message'] of a socket that has not joined, with no content, or
    with a content that trims to the empty string, does nothing and emits
    nothing.  Otherwise the trimmed content is written as the newest entry
    of the log, a message of type [user] under the name and in the colour of
    the user of the socket, and is emitted to all sockets; the users are
    left as they are. *)
Theorem onMessage_appends (trim : string -> string) (socket r36 : string)
    (now : Z) (content : option string) (st : Service.State) :
  let r := Service.onMessage trim socket r36 now content st in
  (JsMap.get socket (Service.users st) = None
   \/ content = None
   \/ (exists text, content = Some text /\ trim text = "") ->
   r = (st, []))
  /\ (forall user text,
        JsMap.get socket (Service.users st) = Some user ->
        content = Some text -> trim text <> "" ->
        let message :=
          Message.mk (generateId r36) (Service.username user) (trim text) now
                     type_user (Service.color user) in
        Service.users (fst r) = Service.users st
        /\ (exists older, Service.messages (fst r) = older ++ [message])
        /\ snd r = [(Service.ToAll, Service.NewMessage message)]).
Proof.
  intros r. subst r. unfold Service.onMessage. split.
  - intros [Hnone | [-> | (text & -> & Hblank)]].
    + now rewrite Hnone.
    + destruct (JsMap.get socket (Service.users st)); reflexivity.
    + rewrite Hblank. cbn.
      destruct (JsMap.get socket (Service.users st)); reflexivity.
  - intros user text Hget -> Htext. rewrite Hget.
    apply String.eqb_neq in Htext. rewrite Htext.
    cbn [negb fst snd Service.users Service.messages].
    split; [reflexivity |]. split; [| reflexivity].
    destruct (service_addMessage_newest
                (ChatService.createUserMessage now r36 (Service.username user)
                   (trim text) (Service.color user))
                (Service.messages st)) as (older & Hlog & _).
    exists older. exact Hlog.
Qed.

(** X19. A ['join'] puts the user of the socket under the id of the socket,
    with the name given and a colour of the palette: a socket that had
    joined keeps its place in the map and gets the new record, a socket that
    had not goes to the end; the users of the other sockets stay.  The
    system message "<username> joined the chat" is the newest entry of the
    log and is emitted to all sockets with the user, and the list of users
    sent to the socket holds the user. *)
Theorem onJoin_registers (socket : string) (rnd : Q) (r36 : string)
    (now : Z) (username : string) (st : Service.State) :
  unit_draw rnd ->
  let r := Service.onJoin socket rnd r36 now username st in
  let user := Service.mkUser socket username (getRandomColor rnd) in
  let notice :=
    Message.mk (generateId r36) "System"
               (username ++ " joined the chat")%string now type_system
               "#666666" in
  In (Service.color user) colors
  /\ JsMap.get socket (Service.users (fst r)) = Some user
  /\ (forall k, k <> socket ->
        JsMap.get k (Service.users (fst r)) = JsMap.get k (Service.users st))
  /\ (In socket (JsMap.keys (Service.users st)) ->
      JsMap.keys (Service.users (fst r)) = JsMap.keys (Service.users st))
  /\ (~ In socket (JsMap.keys (Service.users st)) ->
      Service.users (fst r) = Service.users st ++ [(socket, user)])
  /\ (exists older, Service.messages (fst r) = older ++ [notice])
  /\ (exists listed,
        snd r = [(Service.ToAll, Service.UserJoined user notice);
                 (Service.ToSocket socket, Service.UsersList listed)]
        /\ In user listed).
Proof.
  intros Hrnd r user notice. subst r user notice.
  cbn [Service.onJoin fst snd Service.users Service.messages Service.color].
  split; [apply getRandomColor_in_palette, Hrnd |].
  split; [apply JsMapFacts.get_set_eq |].
  split; [intros k Hk; apply JsMapFacts.get_set_ne, Hk |].
  split; [apply JsMapFacts.keys_set_present |].
  split; [apply set_absent |].
  split.
  - destruct (service_addMessage_newest
                (ChatService.createSystemMessage now r36
                   (username ++ " joined the chat")%string)
                (Service.messages st)) as (older & Hlog & _).
    exists older. exact Hlog.
  - eexists. split; [reflexivity |].
    apply In_values. exists socket. apply JsMapFacts.get_In, JsMapFacts.get_set_eq.
Qed.

Lemma onJoin_registers_witness :
  let st := fst (Service.onJoin "sock1" (1 # 2) "0.h5tq0c3n8ab" 1 "Alice"
                   Service.init) in
  unit_draw (1 # 4)
  /\ JsMap.get "sock1"
       (Service.users (fst (Service.onJoin "sock1" (1 # 4) "0.b7d1s6u4p2z" 2
                              "Alicia" st)))
     = Some (Service.mkUser "sock1" "Alicia" "#2ecc71").
Proof.
  intros st. split; [exact quarter_is_unit_draw |].
  exact (proj1 (proj2 (onJoin_registers "sock1" (1 # 4) "0.b7d1s6u4p2z" 2
                         "Alicia" st quarter_is_unit_draw))).
Defined.

(** * The page *)

Section PageFacts.
Context {A : Type} (id : A -> string).

Lemma findIndex_in_prefix (p : A -> bool) (pre l : list A) :
  existsb p pre = true ->
  0 <= findIndex p (pre ++ l) < Z.of_nat (List.length pre).
Proof.
  induction pre as [| a pre IH]; cbn [existsb app findIndex List.length];
    [discriminate |].
  destruct (p a); cbn [orb]; [lia |].
  intros H. specialize (IH H).
  destruct (Z.ltb_spec (findIndex p (pre ++ l)) 0); lia.
Qed.

Lemma findIndex_at_boundary (p : A -> bool) (pre l : list A) (x : A) :
  p x = true ->
  (findIndex p (pre ++ x :: l) =? Z.of_nat (List.length pre))
  = negb (existsb p pre).
Proof.
  intros Hx. destruct (existsb p pre) eqn:Hex; cbn [negb].
  - pose proof (findIndex_in_prefix p pre (x :: l) Hex). lia.
  - apply Z.eqb_eq. apply (findIndex_first p _ _ x).
    + rewrite nth_error_app2 by lia. now rewrite Nat.sub_diag.
    + exact Hx.
    + intros j y Hj Hy. rewrite nth_error_app1 in Hy by exact Hj.
      apply nth_error_In in Hy.
      destruct (p y) eqn:Hpy; [| reflexivity].
      assert (existsb p pre = true) by (apply existsb_exists; eauto).
      congruence.
Qed.

Lemma filterFrom_firstOccurrences (pre l : list A) :
  filterFrom (Z.of_nat (List.length pre))
    (fun msg index =>
       index =? findIndex (fun m => String.eqb (id m) (id msg)) (pre ++ l))
    l
  = firstOccurrences id pre l.
Proof.
  revert pre. induction l as [| x l IH]; intros pre; [reflexivity |].
  cbn [filterFrom firstOccurrences].
  rewrite Z.eqb_sym, findIndex_at_boundary by apply String.eqb_refl.
  replace (Z.of_nat (List.length pre) + 1)
    with (Z.of_nat (List.length (pre ++ [x])))
    by (rewrite length_app; cbn [List.length]; lia).
  replace (pre ++ x :: l) with ((pre ++ [x]) ++ l)
    by (rewrite <- app_assoc; reflexivity).
  rewrite IH. destruct (existsb _ pre); reflexivity.
Qed.

Lemma uniqueById_firstOccurrences (l : list A) :
  uniqueById id l = firstOccurrences id [] l.
Proof. exact (filterFrom_firstOccurrences [] l). Qed.

Lemma existsb_same_id (x : A) (pre : list A) :
  existsb (fun m => String.eqb (id m) (id x)) pre = true
  <-> In (id x) (map id pre).
Proof.
  rewrite existsb_exists, in_map_iff. split.
  - intros (m & Hin & Heq). apply String.eqb_eq in Heq. eauto.
  - intros (m & Heq & Hin). exists m. split; [exact Hin |].
    now apply String.eqb_eq.
Qed.

Lemma firstOccurrences_sound (pre l : list A) (y : A) :
  In y (firstOccurrences id pre l) -> In y l /\ ~ In (id y) (map id pre).
Proof.
  revert pre. induction l as [| x l IH]; intros pre; cbn [firstOccurrences];
    [intros [] |].
  assert (Hrec : In y (firstOccurrences id (pre ++ [x]) l) ->
                 In y (x :: l) /\ ~ In (id y) (map id pre)).
  { intros H. apply IH in H as [Hin Hnot]. split; [now right |].
    intros Hpre. apply Hnot. rewrite map_app. apply in_or_app. now left. }
  destruct (existsb _ pre) eqn:Hex; [exact Hrec |].
  intros [<- | H]; [| now apply Hrec].
  split; [now left |]. intros Hin. apply existsb_same_id in Hin. congruence.
Qed.

Lemma firstOccurrences_NoDup (pre l : list A) :
  NoDup (map id (firstOccurrences id pre l)).
Proof.
  revert pre. induction l as [| x l IH]; intros pre; cbn [firstOccurrences];
    [constructor |].
  destruct (existsb _ pre); [apply IH |].
  cbn [map]. constructor; [| apply IH].
  intros Hin. apply in_map_iff in Hin as (y & Hid & Hy).
  apply firstOccurrences_sound in Hy as [_ Hnot]. apply Hnot.
  rewrite Hid, map_app. apply in_or_app. right. now left.
Qed.

Lemma firstOccurrences_complete (pre l : list A) (y : A) :
  In y l ->
  In (id y) (map id pre) \/ In (id y) (map id (firstOccurrences id pre l)).
Proof.
  revert pre. induction l as [| x l IH]; intros pre; [intros [] |].
  cbn [firstOccurrences]. intros [<- | Hin].
  - destruct (existsb _ pre) eqn:Hex.
    + left. now apply existsb_same_id.
    + right. now left.
  - destruct (IH (pre ++ [x]) Hin) as [Hpre | Hrest].
    + rewrite map_app in Hpre. apply in_app_or in Hpre as [Hpre | [Hx | []]];
        [now left |].
      destruct (existsb _ pre) eqn:Hex.
      * left. rewrite <- Hx. now apply existsb_same_id.
      * right. left. exact Hx.
    + right. destruct (existsb _ pre); [exact Hrest | now right].
Qed.

Lemma firstOccurrences_distinct (pre l : list A) :
  NoDup (map id (pre ++ l)) -> firstOccurrences id pre l = l.
Proof.
  revert pre. induction l as [| x l IH]; intros pre Hnd; [reflexivity |].
  cbn [firstOccurrences].
  assert (Hrec : firstOccurrences id (pre ++ [x]) l = l).
  { apply IH. now rewrite <- app_assoc. }
  destruct (existsb _ pre) eqn:Hex; [| now rewrite Hrec].
  exfalso. apply existsb_same_id in Hex.
  rewrite map_app in Hnd. cbn [map] in Hnd.
  apply NoDup_remove_2 in Hnd. apply Hnd, in_or_app. now left.
Qed.

(** X20. The page keeps of a list of messages the first one of every id,
    in the order of the list: the list it keeps has no id twice, holds
    messages of the list only and one for every id of the list; a list with
    no id twice is kept whole, and doing it again changes nothing. *)
Theorem uniqueById_first_of_each (l : list A) :
  uniqueById id l = firstOccurrences id [] l
  /\ NoDup (map id (uniqueById id l))
  /\ (forall x, In x (uniqueById id l) -> In x l)
  /\ (forall x, In x l -> In (id x) (map id (uniqueById id l)))
  /\ (NoDup (map id l) -> uniqueById id l = l)
  /\ uniqueById id (uniqueById id l) = uniqueById id l.
Proof.
  assert (Hnd : NoDup (map id (uniqueById id l))).
  { rewrite uniqueById_firstOccurrences. apply firstOccurrences_NoDup. }
  split; [apply uniqueById_firstOccurrences |].
  split; [exact Hnd |].
  split.
  { intros x Hx. rewrite uniqueById_firstOccurrences in Hx.
    now apply firstOccurrences_sound in Hx. }
  split.
  { intros x Hx. rewrite uniqueById_firstOccurrences.
    destruct (firstOccurrences_complete [] l x Hx) as [[] | H]. exact H. }
  split.
  { intros H. rewrite uniqueById_firstOccurrences.
    now apply firstOccurrences_distinct. }
  rewrite (uniqueById_firstOccurrences (uniqueById id l)).
  now apply firstOccurrences_distinct.
Qed.

Lemma NoDup_map_app_single (l : list A) (x : A) :
  NoDup (map id l) -> ~ In (id x) (map id l) -> NoDup (map id (l ++ [x])).
Proof.
  intros Hnd Hx. rewrite map_app. apply NoDup_app; [exact Hnd | | ].
  - repeat constructor. intros [].
  - intros y Hy [<- | []]. contradiction.
Qed.

(** X21. The list of users of the page.  ['user-joined'] adds the user at
    the end when no user of the list has its id and changes nothing
    otherwise, so that the id is then in the list, a list with no id twice
    stays so, and a second ['user-joined'] changes nothing; ['user-left']
    removes every user with the id and keeps the others in their order, and
    after a ['user-joined'] that has added the user it gives the list
    back. *)
Theorem userJoined_userLeft (user : A) (prev : list A) :
  In (id user) (map id (userJoined id user prev))
  /\ (In (id user) (map id prev) -> userJoined id user prev = prev)
  /\ (~ In (id user) (map id prev) -> userJoined id user prev = prev ++ [user])
  /\ (NoDup (map id prev) -> NoDup (map id (userJoined id user prev)))
  /\ userJoined id user (userJoined id user prev) = userJoined id user prev
  /\ ~ In (id user) (map id (userLeft id (id user) prev))
  /\ (forall u, id u <> id user ->
        (In u (userLeft id (id user) prev) <-> In u prev))
  /\ (~ In (id user) (map id prev) ->
      userLeft id (id user) (userJoined id user prev) = prev).
Proof.
  assert (Hfound : In (id user) (map id prev) ->
                   exists u, find (fun u => String.eqb (id u) (id user)) prev
                             = Some u).
  { intros Hin. apply in_map_iff in Hin as (u & Hid & Hin).
    destruct (find _ prev) as [u' |] eqn:Hf; [eauto |].
    eapply find_none in Hf; [| exact Hin]. cbn in Hf.
    apply String.eqb_neq in Hf. contradiction. }
  assert (Hnone : ~ In (id user) (map id prev) ->
                  find (fun u => String.eqb (id u) (id user)) prev = None).
  { intros Hnot. destruct (find _ prev) as [u |] eqn:Hf; [| reflexivity].
    exfalso. apply find_some in Hf as [Hin Heq]. apply String.eqb_eq in Heq.
    apply Hnot. rewrite <- Heq. now apply in_map. }
  assert (Hpresent : In (id user) (map id prev) -> userJoined id user prev = prev).
  { intros Hin. unfold userJoined. now destruct (Hfound Hin) as (u & ->). }
  assert (Habsent : ~ In (id user) (map id prev) ->
                    userJoined id user prev = prev ++ [user]).
  { intros Hnot. unfold userJoined. now rewrite (Hnone Hnot). }
  assert (Hin : In (id user) (map id (userJoined id user prev))).
  { destruct (in_dec string_dec (id user) (map id prev)) as [H | H].
    - now rewrite Hpresent.
    - rewrite Habsent, map_app by exact H. apply in_or_app. right. now left. }
  split; [exact Hin |]. split; [exact Hpresent |]. split; [exact Habsent |].
  split.
  { intros Hnd. destruct (in_dec string_dec (id user) (map id prev)) as [H | H].
    - now rewrite Hpresent.
    - rewrite Habsent by exact H. now apply NoDup_map_app_single. }
  split.
  { unfold userJoined at 1.
    destruct (find _ (userJoined id user prev)) as [u |] eqn:Hf; [reflexivity |].
    exfalso. apply in_map_iff in Hin as (u & Hid & Hu).
    eapply find_none in Hf; [| exact Hu]. cbn in Hf.
    apply String.eqb_neq in Hf. contradiction. }
  split.
  { unfold userLeft. intros H. apply in_map_iff in H as (u & Hid & Hu).
    apply filter_In in Hu as [_ Hne]. apply negb_true_iff in Hne.
    apply String.eqb_neq in Hne. contradiction. }
  split.
  { intros u Hne. unfold userLeft. rewrite filter_In.
    apply String.eqb_neq in Hne. rewrite Hne. cbn. tauto. }
  intros Hnot. rewrite Habsent by exact Hnot. unfold userLeft.
  rewrite filter_app. cbn. rewrite String.eqb_refl. cbn. rewrite app_nil_r.
  apply filter_all. intros u Hu. apply negb_true_iff. apply String.eqb_neq.
  intros Heq. apply Hnot. rewrite <- Heq. now apply in_map.
Qed.

End PageFacts.

Lemma lastId_snoc (d : string) (l : list Message.t) (m : Message.t) :
  lastId d (l ++ [m]) = Message.id m.
Proof.
  unfold lastId. rewrite length_app. cbn [List.length].
  replace (List.length l + 1 - 1)%nat with (List.length l) by lia.
  rewrite nth_error_app2 by lia. now rewrite Nat.sub_diag.
Qed.

Lemma lastId_app (d d' : string) (l l' : list Message.t) :
  l' <> [] -> lastId d (l ++ l') = lastId d' l'.
Proof.
  intros Hne. destruct (exists_last Hne) as (init & m & ->).
  now rewrite app_assoc, !lastId_snoc.
Qed.

(** X22. A page that is up to date stays so.  When the log has no id twice,
    the page shows the log up to a message with a non-empty id and holds
    this id as its cursor, its next poll is answered with exactly the
    messages that follow, and with them the page shows the whole log and
    holds the id of its last message. *)
Theorem page_poll_sync (t1 t2 t3 : Z) (userId username : string)
    (s : ChatStore) (st : PageState) (seen fresh : list Message.t)
    (last : Message.t) :
  getMessages s = seen ++ last :: fresh ->
  NoDup (map Message.id (getMessages s)) ->
  Message.id last <> "" ->
  page_messages st = seen ++ [last] ->
  lastMessageId st = Message.id last ->
  let d := snd (poll t1 t2 t3 (pollBody userId username st) s) in
  data_messages d = fresh
  /\ page_messages (onPollData (data_messages d) st) = getMessages s
  /\ lastMessageId (onPollData (data_messages d) st) = lastId "" (getMessages s).
Proof.
  intros Hlog Hnd Hid Hpage Hcursor d.
  assert (Hdelta : data_messages d = fresh).
  { subst d. rewrite poll_data_messages. cbn [pollBody body_lastMessageId].
    rewrite Hcursor.
    rewrite (newMessages_first (Message.id last) (getMessages s)
               (List.length seen) last Hid).
    - rewrite Hlog.
      replace (S (List.length seen)) with (List.length (seen ++ [last]))
        by (rewrite length_app; cbn; lia).
      replace (seen ++ last :: fresh) with ((seen ++ [last]) ++ fresh)
        by (rewrite <- app_assoc; reflexivity).
      rewrite skipn_app, skipn_all, Nat.sub_diag. reflexivity.
    - rewrite Hlog, nth_error_app2 by lia. now rewrite Nat.sub_diag.
    - reflexivity.
    - intros j m' Hj Hm' Heq.
      assert (Hlast : nth_error (getMessages s) (List.length seen) = Some last).
      { rewrite Hlog, nth_error_app2 by lia. now rewrite Nat.sub_diag. }
      pose proof (NoDup_ids_first _ _ _ _ _ Hnd Hlast Hm' Heq). lia. }
  split; [exact Hdelta |]. rewrite Hdelta. unfold onPollData.
  assert (Hwhole : getMessages s = (seen ++ [last]) ++ fresh)
    by (rewrite Hlog, <- app_assoc; reflexivity).
  destruct fresh as [| m fresh'].
  - cbn [List.length Nat.ltb Nat.leb]. rewrite Hpage, Hcursor, Hwhole, app_nil_r.
    split; [reflexivity |]. now rewrite lastId_snoc.
  - cbn [List.length]. destruct (Nat.ltb_spec 0 (S (List.length fresh'))); [| lia].
    cbn [page_messages lastMessageId]. rewrite Hpage, <- Hwhole. split.
    + rewrite uniqueById_firstOccurrences. now apply firstOccurrences_distinct.
    + rewrite Hwhole. symmetry. apply lastId_app. discriminate.
Qed.

(** The page has seen the first message; two more have been written. *)
Lemma page_poll_sync_witness :
  let s := run [CallAddSystemMessage 1 "0.h5tq0c3n8ab" "Alice joined the chat";
                CallAddMessage 2 "0.b7d1s6u4p2z" "Alice" "hi" "#f39c12" None;
                CallAddSystemMessage 3 "0.m2c8v5x1r9k" "Bob joined the chat"]
               emptyStore in
  let m1 := Message.mk "h5tq0c3n8" "System" "Alice joined the chat" 1
                       type_system "#666666" in
  let st := mkPageState [m1] "h5tq0c3n8" in
  NoDup (map Message.id (getMessages s))
  /\ page_messages
       (onPollData (data_messages (snd (poll 4 5 6 (pollBody "u" "Alice" st) s)))
                   st)
     = getMessages s.
Proof.
  intros s m1 st.
  assert (Hnd : NoDup (map Message.id (getMessages s)))
    by (apply distinct_NoDup; reflexivity).
  split; [exact Hnd |].
  refine (proj1 (proj2 (page_poll_sync 4 5 6 "u" "Alice" s st [] _ m1
                          eq_refl Hnd _ eq_refl eq_refl))).
  discriminate.
Defined.

Lemma uniqueById_covers (l : list Message.t) :
  NoDup (map Message.id (uniqueById Message.id l))
  /\ forall m, In m l ->
               In (Message.id m) (map Message.id (uniqueById Message.id l)).
Proof.
  rewrite uniqueById_firstOccurrences.
  split; [apply firstOccurrences_NoDup |].
  intros m Hm.
  destruct (firstOccurrences_complete Message.id [] l m Hm) as [[] | H].
  exact H.
Qed.

(** X23. A page whose cursor is the id of no message of the log is sent the
    whole log, and keeps of what it showed and of the log one message for
    every id: what it then shows has no id twice and holds, for every
    message of the log, a message with its id. *)
Theorem page_poll_recovers (t1 t2 t3 : Z) (userId username : string)
    (s : ChatStore) (st : PageState) :
  getMessages s <> [] ->
  (forall m, In m (getMessages s) -> Message.id m <> lastMessageId st) ->
  let d := snd (poll t1 t2 t3 (pollBody userId username st) s) in
  let st' := onPollData (data_messages d) st in
  data_messages d = getMessages s
  /\ page_messages st'
     = uniqueById Message.id (page_messages st ++ getMessages s)
  /\ NoDup (map Message.id (page_messages st'))
  /\ (forall m, In m (getMessages s) ->
        In (Message.id m) (map Message.id (page_messages st')))
  /\ lastMessageId st' = lastId "" (getMessages s).
Proof.
  intros Hne Hunknown d st'.
  assert (Hdelta : data_messages d = getMessages s).
  { subst d. rewrite poll_data_messages. cbn [pollBody body_lastMessageId].
    apply newMessages_unknown. intros m Hm. cbn.
    apply String.eqb_neq. now apply Hunknown. }
  assert (Hpage : page_messages st'
                  = uniqueById Message.id (page_messages st ++ getMessages s)).
  { subst st'. rewrite Hdelta. unfold onPollData.
    destruct (getMessages s) as [| m l]; [contradiction |].
    reflexivity. }
  assert (Hcursor : lastMessageId st' = lastId "" (getMessages s)).
  { subst st'. rewrite Hdelta. unfold onPollData.
    destruct (getMessages s) as [| m l] eqn:E; [contradiction |].
    cbn [List.length Nat.ltb Nat.leb lastMessageId].
    rewrite <- (app_nil_l (m :: l)).
    rewrite (lastId_app (lastMessageId st) "" [] (m :: l)) by discriminate.
    reflexivity. }
  split; [exact Hdelta |]. split; [exact Hpage |].
  rewrite Hpage.
  destruct (uniqueById_covers (page_messages st ++ getMessages s))
    as (Hnd & Hall).
  split; [exact Hnd |]. split; [| exact Hcursor].
  intros m Hm. apply Hall, in_or_app. now right.
Qed.

(** A page that has just been opened polls a log of two messages. *)
Lemma page_poll_recovers_witness :
  let s := run [CallAddSystemMessage 1 "0.h5tq0c3n8ab" "Alice joined the chat";
                CallAddMessage 2 "0.b7d1s6u4p2z" "Alice" "hi" "#f39c12" None]
               emptyStore in
  let st := mkPageState [] "" in
  getMessages s <> []
  /\ (forall m, In m (getMessages s) -> Message.id m <> lastMessageId st)
  /\ page_messages
       (onPollData (data_messages (snd (poll 4 5 6 (pollBody "u" "Alice" st) s)))
                   st)
     = getMessages s.
Proof.
  intros s st.
  assert (Hne : getMessages s <> []) by discriminate.
  assert (Hun : forall m, In m (getMessages s) ->
                          Message.id m <> lastMessageId st).
  { intros m [<- | [<- | []]]; discriminate. }
  split; [exact Hne |]. split; [exact Hun |].
  destruct (page_poll_recovers 4 5 6 "u" "Alice" s st Hne Hun)
    as (_ & Hpage & _).
  rewrite Hpage. reflexivity.
Defined.

(** * The routes act through the store *)











(** X24. [POST /api/message] of the service.  A body that cannot be read,
    or lacks a truthy [username] or [content], is answered with status 400,
    changes nothing and emits nothing.  A message with a non-empty name and
    content is written as the newest entry of the log, of type [user], in
    the colour given or, when none is, in a colour drawn from the palette;
    it is emitted to all sockets and returned; the users are left as they
    are, as the route registers nobody. *)
Theorem httpPostMessage_posts (rnd : Q) (r36 : string) (now : Z)
    (st : Service.State) :
  Service.httpPostMessage rnd r36 now None st
  = Some (st, [], Failure 400 "Invalid JSON")
  /\ (forall b, truthy (send_username b) = false
                \/ truthy (send_content b) = false ->
        Service.httpPostMessage rnd r36 now (Some b) st
        = Some (st, [], Failure 400 "username and content required"))
  /\ (forall name content c color,
        name <> "" -> content <> "" ->
        (color = JsString c /\ c <> "")
        \/ (truthy color = false /\ c = getRandomColor rnd) ->
        let message := Message.mk (generateId r36) name content now
                                  type_user c in
        exists st',
          Service.httpPostMessage rnd r36 now
            (Some (mkSendBody (JsString name) (JsString content) color)) st
          = Some (st', [(Service.ToAll, Service.NewMessage message)],
                  Success message)
          /\ Service.users st' = Service.users st
          /\ (exists older, Service.messages st' = older ++ [message])
          /\ (truthy color = false -> unit_draw rnd -> In c colors)).
Proof.
  split; [reflexivity |]. split.
  - intros b [H | H]; unfold Service.httpPostMessage; rewrite H; cbn [negb orb];
      [| rewrite orb_true_r]; reflexivity.
  - intros name content c color Hname Hcontent Hcolor message.
    unfold Service.httpPostMessage. cbn [send_username send_content send_color].
    rewrite (truthy_string name Hname), (truthy_string content Hcontent).
    cbn [negb orb].
    assert (Hc : (if truthy color
                  then match color with
                       | JsString c0 => Some c0
                       | _ => None
                       end
                  else Some (getRandomColor rnd)) = Some c).
    { destruct Hcolor as [[-> Hc] | [Hfalsy ->]].
      - now rewrite (truthy_string c Hc).
      - now rewrite Hfalsy. }
    rewrite Hc.
    destruct (service_addMessage_newest
                (ChatService.createUserMessage now r36 name content c)
                (Service.messages st)) as (older & Hlog & _).
    eexists. split; [reflexivity |].
    cbn [Service.users Service.messages].
    split; [reflexivity |]. split; [exists older; exact Hlog |].
    intros Hfalsy Hrnd. destruct Hcolor as [[-> Hne] | [_ ->]].
    + rewrite (truthy_string c Hne) in Hfalsy. discriminate.
    + apply getRandomColor_in_palette, Hrnd.
Qed.
